(** * A shallow embedding of asvdb ([src/asvdb/asvdb.py])

    The ASV "database" stores, per benchmark name, a grid: a list of
    parameter-value columns and a flat list of results indexed by the
    cartesian product of the columns.  Writers serialise through marker
    ("lock") files in the directory being written. *)

From Stdlib Require Import List String Ascii ZArith Lia Bool.
Import ListNotations.

Open Scope Z_scope.

(** ** Python-level helpers *)

(** Exceptions raised by the code paths we model. *)
Inductive pyexc :=
| IndexError
| ArityMismatch           (* the ValueError of __updateBenchmarkJson *)
| NameError (name : string)
| FileNotFoundError (file : string).

(** [x in l] for a list of strings. *)
Definition mem (x : string) (l : list string) : bool :=
  existsb (String.eqb x) l.

Definition tuple_eqb (a b : list string) : bool :=
  if list_eq_dec string_dec a b then true else false.

(** [itertools.product( *cols )]: leftmost column varies slowest. *)
Fixpoint product (cols : list (list string)) : list (list string) :=
  match cols with
  | [] => [[]]
  | c :: cs => flat_map (fun x => map (cons x) (product cs)) c
  end.

(** [product(len(c) for c in cols)] *)
Fixpoint prod_len (cols : list (list string)) : nat :=
  match cols with
  | [] => 1%nat
  | c :: cs => (List.length c * prod_len cs)%nat
  end.

(** Position of a tuple in the product order (first occurrence). *)
Fixpoint index_of (t : list string) (l : list (list string)) : option nat :=
  match l with
  | [] => None
  | p :: ps =>
      if tuple_eqb t p then Some 0%nat
      else option_map S (index_of t ps)
  end.

(** ** The result grid ([ASVDb.__updateResultJson]) *)

Section GridDefs.
Context {R : Type}.

(** A JSON result value: [None] is [null]. *)
Definition value := option R.

(** A Python dict keyed by parameter tuples, as an association list in which
    the most recent binding comes first (so a later assignment wins). *)
Definition tdict := list (list string * value).

Definition dict_set (m : tdict) (k : list string) (v : value) : tdict :=
  (k, v) :: m.

Fixpoint dict_lookup (m : tdict) (k : list string) : option value :=
  match m with
  | [] => None
  | (k', v) :: m' => if tuple_eqb k k' then Some v else dict_lookup m' k
  end.

(** [m.get(k)]: [None] (null) when the key is absent. *)
Definition dict_get (m : tdict) (k : list string) : value :=
  match dict_lookup m k with
  | Some v => v
  | None => None
  end.

(** [dict(zip(keys, vals))]: zip truncates, later duplicates win. *)
Definition dict_of_zip (keys : list (list string)) (vals : list value) : tdict :=
  fold_left (fun m kv => dict_set m (fst kv) (snd kv)) (combine keys vals) [].

(** The "params"/"result" pair stored for one benchmark name; a name that
    is absent from the results file reads as ([], []) via [setdefault]. *)
Record grid := mkGrid { g_params : list (list string); g_result : list value }.

Definition empty_grid : grid := mkGrid [] [].

(** [for i in range(len(cols)): if t[i] not in cols[i]: cols[i].append(t[i])];
    [t[i]] raises IndexError when [t] is shorter than [cols]. *)
Fixpoint update_cols (cols : list (list string)) (t : list string)
  : option (list (list string)) :=
  match cols, t with
  | [], _ => Some []
  | c :: cs, v :: vs =>
      option_map (cons (if mem v c then c else c ++ [v])) (update_cols cs vs)
  | _ :: _, [] => None
  end.

(** Lines 290-327 of [__updateResultJson].  Note that [paramsCartProd] is
    computed after the columns have been extended in place. *)
Definition mergeResult (t : list string) (r : value) (g : grid)
  : sum grid pyexc :=
  match g_params g with
  | [] => inl (mkGrid (map (fun v => [v]) t) [r])
  | _ =>
      match update_cols (g_params g) t with
      | None => inr IndexError
      | Some cols' =>
          let paramsCartProd := product cols' in
          let m := dict_of_zip paramsCartProd (g_result g) in
          let m := dict_set m t r in
          inl (mkGrid cols' (map (dict_get m) (product cols')))
      end
  end.

(** The same procedure as the spec describes it: the mapping is built from
    the product of the columns as they were before the update. *)
Definition mergeResult_spec (t : list string) (r : value) (g : grid)
  : sum grid pyexc :=
  match g_params g with
  | [] => inl (mkGrid (map (fun v => [v]) t) [r])
  | _ =>
      match update_cols (g_params g) t with
      | None => inr IndexError
      | Some cols' =>
          let m := dict_of_zip (product (g_params g)) (g_result g) in
          let m := dict_set m t r in
          inl (mkGrid cols' (map (dict_get m) (product cols')))
      end
  end.

(** Repeated merges of one tuple, as repeated [record()] calls do. *)
Fixpoint mergeMany (t : list string) (rs : list value) (g : grid)
  : sum grid pyexc :=
  match rs with
  | [] => inl g
  | r :: rs' =>
      match mergeResult t r g with
      | inl g' => mergeMany t rs' g'
      | inr e => inr e
      end
  end.

(** The value a grid associates with a tuple: its entry at the tuple's
    product-order position. *)
Definition grid_value (g : grid) (p : list string) : value :=
  match index_of p (product (g_params g)) with
  | Some i => match nth_error (g_result g) i with Some v => v | None => None end
  | None => None
  end.

End GridDefs.
Arguments grid : clear implicits.

(** ** Python values and [BenchmarkResult.__sanitizeArgNameValues] *)

Inductive pyval :=
| PNone
| PBool (b : bool)
| PInt (z : Z)
| PStr (s : string).

Definition digit_char (d : Z) : ascii := ascii_of_nat (48 + Z.to_nat d).

Fixpoint digits_aux (fuel : nat) (n : Z) (acc : string) : string :=
  match fuel with
  | O => acc
  | S f =>
      let acc' := String (digit_char (n mod 10)) acc in
      if Z.eqb (n / 10) 0 then acc' else digits_aux f (n / 10) acc'
  end.

(** [str(z)] for an int: decimal digits, a leading '-' when negative. *)
Definition str_int (z : Z) : string :=
  let digits := digits_aux (S (Z.to_nat (Z.log2 (Z.abs z)))) (Z.abs z) EmptyString in
  if z <? 0 then String "-" digits else digits.

(** [str(v)] *)
Definition py_str (v : pyval) : string :=
  match v with
  | PNone => "None"
  | PBool true => "True"
  | PBool false => "False"
  | PInt z => str_int z
  | PStr s => s
  end.

(** [[(n, str(v if v is not None else "NaN")) for (n, v) in argNameValuePairs]],
    and [[]] when the argument is [None]. *)
Definition sanitizeArgNameValues (argNameValuePairs : option (list (pyval * pyval)))
  : list (pyval * pyval) :=
  match argNameValuePairs with
  | None => []
  | Some l =>
      map (fun '(n, v) =>
             (n, PStr (py_str (match v with PNone => PStr "NaN" | _ => v end)))) l
  end.

Definition is_str (v : pyval) : bool :=
  match v with PStr _ => true | _ => false end.

(** ** Documents *)

Section Docs.
Context {R : Type}.

(** [BenchmarkResult] *)
Record benchmarkResult := mkBenchmarkResult {
  br_name : string;
  br_argNameValuePairs : list (pyval * pyval);
  br_result : @value R;
  br_unit : string }.

Definition BenchmarkResult (funcName : string) (result : @value R)
  (argNameValuePairs : option (list (pyval * pyval))) : benchmarkResult :=
  mkBenchmarkResult funcName (sanitizeArgNameValues argNameValuePairs) result "seconds".

(** The parameter values of a result, as strings (they are after
    sanitizing; a value that is not a [PStr] is rendered with [str]). *)
Definition br_values (br : benchmarkResult) : list string :=
  map (fun nv => py_str (snd nv)) (br_argNameValuePairs br).

End Docs.
Arguments benchmarkResult : clear implicits.

(** [BenchmarkInfo] *)
Record benchmarkInfo := mkBenchmarkInfo {
  machineName : string; cudaVer : string; osType : string; pythonVer : string;
  commitHash : string; commitTime : Z;
  gpuType : string; cpuType : string; arch : string; ram : string }.

(** One entry of [benchmarks.json]. *)
Record bench := mkBench {
  b_code : string; b_name : string;
  param_names : list pyval;
  params : list (list string);
  b_timeout : Z; b_type : string; b_unit : string; b_version : Z }.

(** [benchmarks.json]: the benchmark entries and the "version" key. *)
Record catalogDoc := mkCatalog {
  cat_entries : list (string * bench);
  cat_version : option Z }.

Definition empty_catalog : catalogDoc := mkCatalog [] None.

(** [machine.json] *)
Record machineDoc := mkMachine {
  md_arch : string; md_cpu : string; md_gpu : string;
  md_machine : string; md_ram : string; md_version : option Z }.

Definition empty_machine : machineDoc := mkMachine "" "" "" "" "" None.

(** [asv.conf.json] *)
Record confDoc := mkConf {
  c_results_dir : option string;
  c_html_dir : option string;
  c_repo : option string;
  c_branches : option (list string);
  c_version : option Z;
  c_project : option string;
  c_show_commit_url : option string }.

Definition empty_conf : confDoc := mkConf None None None None None None None.

(** A Python dict with string keys, in insertion order. *)
Fixpoint lookup_key {A} (k : string) (m : list (string * A)) : option A :=
  match m with
  | [] => None
  | (k', v) :: m' => if String.eqb k k' then Some v else lookup_key k m'
  end.

(** [d[k] = v]: an existing key keeps its position, a new key goes last. *)
Fixpoint set_key {A} (k : string) (v : A) (m : list (string * A)) : list (string * A) :=
  match m with
  | [] => [(k, v)]
  | (k', v') :: m' =>
      if String.eqb k k' then (k, v) :: m' else (k', v') :: set_key k v m'
  end.

(** ** The store: files on disk, the clock and the JSON documents *)

Section World.
Context {R : Type}.

(** A [<commit>-python<v>-cuda<v>-<os>.json] results document. *)
Record resultsDoc := mkResults {
  rd_params : list (string * string);
  rd_results : list (string * @grid R);
  rd_commit_hash : string;
  rd_date : Z;
  rd_python : string;
  rd_version : option Z }.

Definition empty_results : resultsDoc := mkResults [] [] "" 0 "" None.

(** [files] are the paths present on disk (only the lock markers are
    looked at by path); [clock] is [time.time()] in milliseconds; [rng] is
    the next value of [random.random()] in thousandths.  The JSON documents
    are kept by path; a path that is absent reads as [{}]. *)
Record world := mkWorld {
  files : list string;
  clock : Z;
  rng : Z;
  conf : confDoc;
  catalog : catalogDoc;
  machines : list (string * machineDoc);
  results : list (string * resultsDoc) }.

Definition set_files (w : world) (fs : list string) : world :=
  mkWorld fs (clock w) (rng w) (conf w) (catalog w) (machines w) (results w).
Definition set_clock (w : world) (t : Z) : world :=
  mkWorld (files w) t (rng w) (conf w) (catalog w) (machines w) (results w).
Definition set_conf (d : confDoc) (w : world) : world :=
  mkWorld (files w) (clock w) (rng w) d (catalog w) (machines w) (results w).
Definition set_catalog (d : catalogDoc) (w : world) : world :=
  mkWorld (files w) (clock w) (rng w) (conf w) d (machines w) (results w).
Definition set_machine (p : string) (d : machineDoc) (w : world) : world :=
  mkWorld (files w) (clock w) (rng w) (conf w) (catalog w)
    (set_key p d (machines w)) (results w).
Definition set_results (p : string) (d : resultsDoc) (w : world) : world :=
  mkWorld (files w) (clock w) (rng w) (conf w) (catalog w) (machines w)
    (set_key p d (results w)).

(** Outcome of a step that may raise. *)
Inductive res (A : Type) :=
| Ok (a : A) (w : world)
| Err (e : pyexc) (w : world).
Arguments Ok {A}. Arguments Err {A}.

(** State and exceptions, plus [None] when the lock loop has not finished
    within the given number of scans. *)
Definition LM (A : Type) := world -> option (res A).

Definition lret {A} (a : A) : LM A := fun w => Some (Ok a w).

Definition lbind {A B} (c : LM A) (k : A -> LM B) : LM B := fun w =>
  match c w with
  | Some (Ok a w') => k a w'
  | Some (Err e w') => Some (Err e w')
  | None => None
  end.

Definition lift {A} (c : world -> res A) : LM A := fun w => Some (c w).

Definition lmodify (f : world -> world) : LM unit := fun w => Some (Ok tt (f w)).

End World.
Arguments world : clear implicits.
Arguments resultsDoc : clear implicits.
Arguments res : clear implicits.
Arguments Ok {R A}.
Arguments Err {R A}.
Arguments LM : clear implicits.

Notation "'let*' x := c 'in' k" := (lbind c (fun x => k))
  (at level 200, x name, c at level 100, k at level 200).

(** ** Lock markers ([__updateOtherLockfileTimes], [__getLock], [__releaseLock]) *)

Definition lockFilePrefix : string := ".asvdbLOCK".
Definition lockFileTimeout : Z := 5000.  (* self.lockFileTimeout = 5 s *)
Definition poll_interval : Z := 200.     (* time.sleep(0.2) *)

(** [path.join(d, n)] for a directory [d] without trailing separator. *)
Definition path_join (d n : string) : string := (d ++ "/" ++ n)%string.

Definition has_slash (s : string) : bool :=
  existsb (fun c => Ascii.eqb c "/"%char) (list_ascii_of_string s).

(** [glob.glob(pat + "*")]: paths starting with [pat] whose remainder stays
    in the same directory. *)
Definition glob_prefix (pat : string) (fs : list string) : list string :=
  filter (fun f => String.prefix pat f
                   && negb (has_slash (substring (String.length pat) (String.length f) f)))
    fs.

(** The modules bound at the top of asvdb.py. *)
Definition module_globals : list string :=
  ["json"%string; "os"%string; "path"%string; "itertools"%string; "glob"%string; "time"%string].

Section Lock.
Context {R : Type}.

(** [lockFileTimes.setdefault(k, d)] on a dict of discovery times. *)
Fixpoint lookup_time (k : string) (m : list (string * Z)) : option Z :=
  match m with
  | [] => None
  | (k', v) :: m' => if String.eqb k k' then Some v else lookup_time k m'
  end.

Definition setdefault (m : list (string * Z)) (k : string) (d : Z)
  : list (string * Z) * Z :=
  match lookup_time k m with
  | Some v => (m, v)
  | None => (m ++ [(k, d)], d)
  end.

(** [os.remove(f)] *)
Definition removeFile (f : string) (w : world R) : res R unit :=
  if mem f (files w) then Ok tt (set_files w (remove string_dec f (files w)))
  else Err (FileNotFoundError f) w.

(** [__removeFiles] *)
Fixpoint removeFiles (fs : list string) (w : world R) : res R unit :=
  match fs with
  | [] => Ok tt w
  | f :: fs' =>
      match removeFile f w with
      | Ok _ w' => removeFiles fs' w'
      | Err e w' => Err e w'
      end
  end.

(** One iteration of the [for lockFile in allLockFiles] loop. *)
Definition scan_one (thisLockFile : string) (now : Z)
  (acc : list (string * Z) * list string) (lockFile : string)
  : list (string * Z) * list string :=
  let '(tm, expired) := acc in
  if String.eqb lockFile thisLockFile then (tm, expired)
  else
    let '(tm', t0) := setdefault tm lockFile now in
    (tm', if now - t0 >? lockFileTimeout then expired ++ [lockFile] else expired).

(** [__updateOtherLockfileTimes(dirPath, lockFileTimes)]: returns the
    updated dict of discovery times. *)
Definition updateOtherLockfileTimes (dirPath lockFileName : string)
  (lockFileTimes : list (string * Z)) (w : world R) : res R (list (string * Z)) :=
  let thisLockFile := path_join dirPath lockFileName in
  let now := clock w in
  let allLockFiles := glob_prefix (path_join dirPath lockFilePrefix) (files w) in
  let times := filter (fun kv => mem (fst kv) allLockFiles) lockFileTimes in
  let '(times', expired) := fold_left (scan_one thisLockFile now) allLockFiles (times, []) in
  match removeFiles expired w with
  | Ok _ w' => Ok times' w'
  | Err e w' => Err e w'
  end.

(** [__createLockfile]: [open(thisLockFile, "w").close()] *)
Definition createLockfile (dirPath lockFileName : string) (w : world R) : world R :=
  let f := path_join dirPath lockFileName in
  if mem f (files w) then w else set_files w (files w ++ [f]).

(** [__releaseLock] *)
Definition releaseLock (dirPath lockFileName : string) (w : world R) : res R unit :=
  removeFile (path_join dirPath lockFileName) w.

Definition sleep (ms : Z) (w : world R) : world R := set_clock w (clock w + ms).

(** [random.random()]: the name must be bound in the module. *)
Definition random_random (w : world R) : res R Z :=
  if mem "random" module_globals then Ok (rng w) w else Err (NameError "random") w.

(** Control points of [__getLock]: the top of [while True], and the inner
    [while otherLockFileTimes.keys()] loop. *)
Inductive lphase := LTop | LWait.

Record lstate := mkL { l_phase : lphase; l_times : list (string * Z); l_world : world R }.

Inductive lstep :=
| LNext (s : lstate)
| LDone (w : world R)
| LFail (e : pyexc) (w : world R).

(** [env] is what other processes do to the store before each of our
    scans. *)
Variable env : world R -> world R.

Definition lock_step (dirPath lockFileName : string) (s : lstate) : lstep :=
  let scan times w :=
    updateOtherLockfileTimes dirPath lockFileName times (env w) in
  match l_phase s with
  | LTop =>
      match scan (l_times s) (l_world s) with
      | Ok t w => LNext (mkL LWait t w)
      | Err e w => LFail e w
      end
  | LWait =>
      match l_times s with
      | _ :: _ =>
          match scan (l_times s) (sleep poll_interval (l_world s)) with
          | Ok t w => LNext (mkL LWait t w)
          | Err e w => LFail e w
          end
      | [] =>
          let w1 := createLockfile dirPath lockFileName (l_world s) in
          match scan [] w1 with
          | Err e w => LFail e w
          | Ok [] w => LDone w
          | Ok t w =>
              match releaseLock dirPath lockFileName w with
              | Err e w' => LFail e w'
              | Ok _ w' =>
                  match random_random w' with
                  | Err e w'' => LFail e w''
                  | Ok r1 w'' =>
                      match random_random w'' with
                      | Err e w3 => LFail e w3
                      | Ok r2 w3 =>
                          (* (int(3 * random.random()) + 1) + random.random() *)
                          let ms := ((3 * r1) / 1000 + 1) * 1000 + r2 in
                          LNext (mkL LTop t (sleep ms w3))
                      end
                  end
              end
          end
      end
  end.

Fixpoint lock_run (dirPath lockFileName : string) (fuel : nat) (s : lstate)
  : option (res R unit) :=
  match fuel with
  | O => None
  | S f =>
      match lock_step dirPath lockFileName s with
      | LNext s' => lock_run dirPath lockFileName f s'
      | LDone w => Some (Ok tt w)
      | LFail e w => Some (Err e w)
      end
  end.

(** [__getLock(dirPath)], run for at most [fuel] steps. *)
Definition getLock (fuel : nat) (dirPath lockFileName : string) : LM R unit :=
  fun w => lock_run dirPath lockFileName fuel (mkL LTop [] w).

End Lock.

(** ** String helpers for [ASVDb.__init__] *)

(** [s.endswith(suf)] *)
Definition ends_with (suf s : string) : bool :=
  let n := String.length s in
  let m := String.length suf in
  Nat.leb m n && String.eqb (substring (n - m) m s) suf.

(** [s.replace(pat, "")] for a non-empty [pat]. *)
Fixpoint remove_all_aux (fuel : nat) (pat s : string) : string :=
  match fuel with
  | O => s
  | S f =>
      match s with
      | EmptyString => EmptyString
      | String c s' =>
          if String.prefix pat s
          then remove_all_aux f pat (substring (String.length pat) (String.length s) s)
          else String c (remove_all_aux f pat s')
      end
  end.

Definition remove_all (pat s : string) : string :=
  remove_all_aux (String.length s) pat s.

(** [s.split("/")[-1]] *)
Fixpoint last_component_aux (s acc : string) : string :=
  match s with
  | EmptyString => acc
  | String c s' =>
      if Ascii.eqb c "/"%char then last_component_aux s' EmptyString
      else last_component_aux s' (acc ++ String c EmptyString)
  end.

Definition last_component (s : string) : string := last_component_aux s EmptyString.

(** [x or y] for an optional string argument ([None] and [""] are falsy). *)
Definition or_else (x : option string) (y : string) : string :=
  match x with
  | Some s => if String.eqb s "" then y else s
  | None => y
  end.

(** The [asv.conf.json] document written by [ASVDb.__init__]. *)
Definition init_conf (d : confDoc) (repo : string) (branches : option (list string))
  (projectName commitUrl : option string) : confDoc :=
  let resultsDirName := match c_results_dir d with Some x => x | None => "results"%string end in
  let htmlDirName := match c_html_dir d with Some x => x | None => "html"%string end in
  let currentBranches := match c_branches d with Some b => b | None => [] end in
  let newBranches := match branches with Some b => b | None => [] end in
  mkConf (Some resultsDirName) (Some htmlDirName)
    (Some (repo ++ (if ends_with ".git" repo then "" else ".git"))%string)
    (Some (currentBranches ++ filter (fun b => negb (mem b currentBranches)) newBranches))
    (Some 1)
    (Some (or_else projectName (last_component (remove_all ".git" repo))))
    (Some (or_else commitUrl
             (remove_all ".git" repo
              ++ (if ends_with "/" repo then "" else "/") ++ "commit/")%string)).

(** ** The [ASVDb] operations *)

(** The instance fields the write paths use. *)
Record asvdb := mkASVDb {
  dbDir : string;
  resultsDirPath : string;
  lockFileName : string;
  writeDelay : Z;
  doWriteOperations : bool }.

Definition set_doWriteOperations (b : bool) (db : asvdb) : asvdb :=
  mkASVDb (dbDir db) (resultsDirPath db) (lockFileName db) (writeDelay db) b.

Definition set_b_unit (u : string) (b : bench) : bench :=
  mkBench (b_code b) (b_name b) (param_names b) (params b)
    (b_timeout b) (b_type b) u (b_version b).

Definition set_params (ps : list (list string)) (b : bench) : bench :=
  mkBench (b_code b) (b_name b) (param_names b) ps
    (b_timeout b) (b_type b) (b_unit b) (b_version b).

(** [__getDefaultBenchmarkDescrDict] *)
Definition getDefaultBenchmarkDescrDict (funcName : string) (paramNames : list pyval) : bench :=
  mkBench funcName funcName paramNames [] 60 "time" "seconds" 2.

(** [for i in range(numParams): if v[i] not in params[i]: params[i].append(v[i])];
    [params[i]] raises IndexError when there are fewer columns. *)
Fixpoint extend_params (ps : list (list string)) (vals : list string)
  : option (list (list string)) :=
  match vals, ps with
  | [], _ => Some ps
  | v :: vs, p :: ps' =>
      option_map (cons (if mem v p then p else p ++ [v])) (extend_params ps' vs)
  | _ :: _, [] => None
  end.

Definition machine_dir (db : asvdb) (info : benchmarkInfo) : string :=
  path_join (resultsDirPath db) (machineName info).

(** [__getResultsFilePath] *)
Definition getResultsFilePath (db : asvdb) (info : benchmarkInfo) : string :=
  path_join (machine_dir db info)
    (commitHash info ++ "-python" ++ pythonVer info ++ "-cuda" ++ cudaVer info
     ++ "-" ++ osType info ++ ".json")%string.

Section Ops.
Context {R : Type}.

(** [fuel] bounds every lock loop; [env] is the other processes. *)
Variable fuel : nat.
Variable env : world R -> world R.

(** [__writeJsonDictToFile(d, filePath)], [put] storing [d] at [filePath]. *)
Definition writeJsonDictToFile (db : asvdb) (dirPath : string)
  (put : world R -> world R) : LM R unit :=
  let* _ := getLock env fuel dirPath (lockFileName db) in
  let* _ := lmodify put in
  lift (releaseLock dirPath (lockFileName db)).

(** [__checkForWritePermission] with [doWriteOperations] left as is by the
    other threads: waits [writeDelay] and answers [doWriteOperations].  Its
    last step, [self.doWriteOperations = True], changes the object, not the
    store: the object is the [asvdb] argument here, so this is one call;
    [addResult_obj] below carries the reset over to the next call. *)
Definition checkForWritePermission (db : asvdb) : LM R bool := fun w =>
  if doWriteOperations db then Some (Ok true (sleep (writeDelay db) w))
  else Some (Ok false w).

(** [__updateBenchmarkJson].  The catalog's ["version"] key is kept apart
    from the benchmark entries, which in the code share one dict with it:
    this is the code for every benchmark name other than ["version"]. *)
Definition updateBenchmarkJson (db : asvdb) (br : benchmarkResult R) : LM R unit := fun w =>
  let newParamNames := map fst (br_argNameValuePairs br) in
  let newParamValues := br_values br in
  let d := catalog w in
  let benchDict :=
    match lookup_key (br_name br) (cat_entries d) with
    | Some b => b
    | None => getDefaultBenchmarkDescrDict (br_name br) newParamNames
    end in
  let benchDict := set_b_unit (br_unit br) benchDict in
  if negb (Nat.eqb (List.length (param_names benchDict)) (List.length newParamNames))
  then Some (Err ArityMismatch w)
  else
    let cartProd := product (params benchDict) in
    let newParams :=
      if existsb (tuple_eqb newParamValues) cartProd then Some (params benchDict)
      else match params benchDict with
           | [] => Some (map (fun v => [v]) newParamValues)
           | ps => extend_params ps newParamValues
           end in
    match newParams with
    | None => Some (Err IndexError w)
    | Some ps =>
        let d' := mkCatalog (set_key (br_name br) (set_params ps benchDict) (cat_entries d))
                    (Some 2) in
        writeJsonDictToFile db (resultsDirPath db) (set_catalog d') w
    end.

(** [__updateMachineJson] *)
Definition updateMachineJson (db : asvdb) (info : benchmarkInfo) : LM R unit := fun w =>
  let p := path_join (machine_dir db info) "machine.json" in
  let d := mkMachine (arch info) (cpuType info) (gpuType info) (machineName info)
             (ram info) (Some 1) in
  writeJsonDictToFile db (machine_dir db info) (set_machine p d) w.

(** [__updateResultJson] *)
Definition updateResultJson (db : asvdb) (br : benchmarkResult R) (info : benchmarkInfo)
  : LM R unit := fun w =>
  let p := getResultsFilePath db info in
  let d := match lookup_key p (results w) with Some x => x | None => empty_results end in
  let g := match lookup_key (br_name br) (rd_results d) with
           | Some x => x | None => empty_grid end in
  match mergeResult (br_values br) (br_result br) g with
  | inr e => Some (Err e w)
  | inl g' =>
      let d' := mkResults
                  [("gpu", gpuType info); ("cuda", cudaVer info);
                   ("machine", machineName info); ("os", osType info);
                   ("python", pythonVer info)]%string
                  (set_key (br_name br) g' (rd_results d))
                  (commitHash info) (commitTime info) (pythonVer info) (Some 1) in
      writeJsonDictToFile db (machine_dir db info) (set_results p d') w
  end.

(** [ASVDb.addResult] *)
Definition addResult (db : asvdb) (info : benchmarkInfo) (br : benchmarkResult R)
  : LM R unit :=
  let* _ := getLock env fuel (dbDir db) (lockFileName db) in
  let* perm := checkForWritePermission db in
  let* _ := (if perm then
               let* _ := updateBenchmarkJson db br in
               let* _ := updateMachineJson db info in
               updateResultJson db br info
             else lret tt) in
  lift (releaseLock (dbDir db) (lockFileName db)).

(** [ASVDb.__init__]: [lockName] is ".asvdbLOCK-<pid>-<time>". *)
Definition ASVDb_init (dbDir0 repo : string) (branches : option (list string))
  (projectName commitUrl : option string) (writeDelay0 : Z) (lockName : string)
  : LM R asvdb := fun w =>
  let d := init_conf (conf w) repo branches projectName commitUrl in
  let resultsDirName := match c_results_dir d with Some x => x | None => "results"%string end in
  let db := mkASVDb dbDir0 (path_join dbDir0 resultsDirName) lockName writeDelay0 true in
  (let* _ := writeJsonDictToFile db dbDir0 (set_conf d) in lret db) w.

End Ops.

(** ** Derived notions used to state the lock properties *)

(** The markers of other holders that a scan of [dirPath] sees. *)
Definition others (dirPath name : string) (fs : list string) : list string :=
  filter (fun f => negb (String.eqb f (path_join dirPath name)))
    (glob_prefix (path_join dirPath lockFilePrefix) fs).

(** [lockFile] has no discovery time yet. *)
Definition is_new (tm : list (string * Z)) (f : string) : bool :=
  match lookup_time f tm with None => true | Some _ => false end.

(** [lockFile] was first seen more than [lockFileTimeout] before [now]. *)
Definition is_expired (tm : list (string * Z)) (now : Z) (f : string) : bool :=
  match lookup_time f tm with
  | Some t0 => now - t0 >? lockFileTimeout
  | None => false
  end.

(** Other processes leave the store alone. *)
Definition passive {R : Type} (w : world R) : world R := w.

(** A store with the given files and catalog, at time 0. *)
Definition example_world {R : Type} (fs : list string) (cat : catalogDoc) : world R :=
  mkWorld fs 0 0 empty_conf cat [] [].

(** Another process that creates its marker [theirs] as soon as ours is on
    disk, before our re-scan. *)
Definition racer (dirPath mine theirs : string) {R : Type} (w : world R) : world R :=
  if mem (path_join dirPath mine) (files w) && negb (mem theirs (files w))
  then set_files w (files w ++ [theirs])
  else w.

(** A database, a machine and a catalog to run the operations on. *)
Definition example_db : asvdb :=
  mkASVDb "/db"%string "/db/results"%string ".asvdbLOCK-1-1"%string 0 true.

Definition example_info : benchmarkInfo :=
  mkBenchmarkInfo "m"%string "11"%string "linux"%string "3.8"%string "abc"%string 0
    "gpu"%string "cpu"%string "x86_64"%string "1"%string.

Definition example_catalog : catalogDoc :=
  mkCatalog [("bench1"%string, getDefaultBenchmarkDescrDict "bench1"%string [PStr "a"%string])]
    (Some 2).

(** Runs an operation on concrete data and supplies its value and final
    store for an [exists a w', c = Some (Ok a w') /\ _] goal. *)
Ltac exists_outcome :=
  lazymatch goal with
  | |- exists a w', ?c = Some (Ok a w') /\ _ =>
      let r := eval vm_compute in c in
      lazymatch r with Some (Ok ?a1 ?w1) => exists a1, w1 end
  | |- exists w', ?c = Some (Ok _ w') /\ _ =>
      let r := eval vm_compute in c in
      lazymatch r with Some (Ok _ ?w1) => exists w1 end
  | |- exists r', ?c = Some r' /\ _ =>
      let r := eval vm_compute in c in
      lazymatch r with Some ?r1 => exists r1 end
  end.

(** ** [__main__.filterResults] *)

Section Main.
Context {R : Type}.

(** [filterResults(resultTupleList, expr)].  [ev info result] is the truth
    value of [eval(expr, globals(), namespace)] in the namespace built by
    [createNamespace] from the attributes of the two objects; the
    expression is one that raises nothing and changes no variable. *)
Fixpoint filterResults (ev : benchmarkInfo -> benchmarkResult R -> bool)
  (resultTupleList : list (benchmarkInfo * list (benchmarkResult R)))
  : list (benchmarkInfo * list (benchmarkResult R)) :=
  match resultTupleList with
  | [] => []
  | (benchmarkInfo, benchmarkResults) :: rest =>
      match filter (ev benchmarkInfo) benchmarkResults with
      | [] => filterResults ev rest
      | resultsForInfo => (benchmarkInfo, resultsForInfo) :: filterResults ev rest
      end
  end.

Variable fuel : nat.
Variable env : world R -> world R.

(** [dbObj.addResult(benchmarkInfo, result)], returning the object as the
    call leaves it: a call that returns has passed [__getLock] and run
    [__checkForWritePermission], which sets [self.doWriteOperations = True]. *)
Definition addResult_obj (dbObj : asvdb) (benchmarkInfo : benchmarkInfo)
  (result : benchmarkResult R) : LM R asvdb :=
  let* _ := addResult fuel env dbObj benchmarkInfo result in
  lret (set_doWriteOperations true dbObj).

(** The inner loop of [updateDb]: [dbObj.addResult(benchmarkInfo, result)]
    for each result, on the object as the previous call left it; an
    exception ends the loop. *)
Fixpoint updateDb_results (dbObj : asvdb) (benchmarkInfo : benchmarkInfo)
  (benchmarkResults : list (benchmarkResult R)) : LM R asvdb :=
  match benchmarkResults with
  | [] => lret dbObj
  | result :: rest =>
      let* dbObj' := addResult_obj dbObj benchmarkInfo result in
      updateDb_results dbObj' benchmarkInfo rest
  end.

(** [updateDb(dbObj, resultTupleList)], returning the object as it is left. *)
Fixpoint updateDb (dbObj : asvdb)
  (resultTupleList : list (benchmarkInfo * list (benchmarkResult R))) : LM R asvdb :=
  match resultTupleList with
  | [] => lret dbObj
  | (benchmarkInfo, benchmarkResults) :: rest =>
      let* dbObj' := updateDb_results dbObj benchmarkInfo benchmarkResults in
      updateDb dbObj' rest
  end.

End Main.

(** The store after a step, whichever way it ended. *)
Definition res_world {R A : Type} (r : res R A) : world R :=
  match r with Ok _ w => w | Err _ w => w end.

(** * Properties *)

Local Open Scope string_scope.

(** ** Products, positions and the grid merge *)

Lemma length_flat_map_cons (c : list string) (P : list (list string)) :
  List.length (flat_map (fun x => map (cons x) P) c) = (List.length c * List.length P)%nat.
Proof.
  induction c as [|x c IH]; simpl; [reflexivity|].
  rewrite length_app, length_map, IH. reflexivity.
Qed.

Lemma length_product (cols : list (list string)) :
  List.length (product cols) = prod_len cols.
Proof.
  induction cols as [|c cs IH]; simpl; [reflexivity|].
  rewrite length_flat_map_cons, IH. reflexivity.
Qed.

Lemma product_singletons (t : list string) :
  product (map (fun v => [v]) t) = [t].
Proof.
  induction t as [|v t IH]; simpl; [reflexivity|].
  rewrite IH. reflexivity.
Qed.

Lemma prod_len_singletons (t : list string) :
  prod_len (map (fun v => [v]) t) = 1%nat.
Proof.
  rewrite <- length_product, product_singletons. reflexivity.
Qed.

Lemma tuple_eqb_refl (t : list string) : tuple_eqb t t = true.
Proof.
  unfold tuple_eqb. destruct (list_eq_dec string_dec t t); congruence.
Qed.

Lemma tuple_eqb_true (a b : list string) : tuple_eqb a b = true -> a = b.
Proof.
  unfold tuple_eqb. destruct (list_eq_dec string_dec a b); congruence.
Qed.

Lemma mem_In (x : string) (l : list string) : mem x l = true <-> In x l.
Proof.
  unfold mem. rewrite existsb_exists. split.
  - intros (y & Hy & E). apply String.eqb_eq in E. subst. exact Hy.
  - intros H. exists x. split; [exact H | apply String.eqb_refl].
Qed.

Lemma update_cols_spec (cols : list (list string)) (t : list string) :
  List.length cols = List.length t ->
  exists cols', update_cols cols t = Some cols' /\
    List.length cols' = List.length cols /\ Forall2 (@In string) t cols'.
Proof.
  revert t. induction cols as [|c cs IH]; intros [|v vs] Hl; simpl in *;
    try discriminate.
  - exists []. repeat split. constructor.
  - destruct (IH vs) as (cs' & E & L & F); [lia|].
    rewrite E. simpl.
    eexists. split; [reflexivity|]. split; [simpl; lia|].
    constructor; [|exact F].
    destruct (mem v c) eqn:M.
    + apply mem_In. exact M.
    + apply in_or_app. right. left. reflexivity.
Qed.

Lemma in_product (t : list string) (cols : list (list string)) :
  Forall2 (@In string) t cols -> In t (product cols).
Proof.
  induction 1 as [|v c vs cs Hv _ IH]; simpl; [left; reflexivity|].
  apply in_flat_map. exists v. split; [exact Hv|].
  apply in_map. exact IH.
Qed.

Lemma index_of_in (t : list string) (l : list (list string)) :
  In t l -> exists i, index_of t l = Some i /\ nth_error l i = Some t.
Proof.
  induction l as [|p ps IH]; simpl; [tauto|]. intros H.
  destruct (tuple_eqb t p) eqn:E.
  - apply tuple_eqb_true in E. subst. exists 0%nat. split; reflexivity.
  - destruct H as [H|H].
    + subst. rewrite tuple_eqb_refl in E. discriminate.
    + destruct (IH H) as (i & Hi & Hn). exists (S i).
      rewrite Hi. split; [reflexivity | exact Hn].
Qed.

Section GridProps.
Context {R : Type}.

Lemma dict_get_set_same (m : @tdict R) (t : list string) (r : value) :
  dict_get (dict_set m t r) t = r.
Proof.
  unfold dict_get, dict_set. simpl. rewrite tuple_eqb_refl. reflexivity.
Qed.

(** One merge of a tuple whose arity matches the grid succeeds, keeps the
    arity, keeps [len(results) == product(len(c) for c in columns)] and
    stores the written value at the tuple's position. *)
Lemma mergeResult_ok (t : list string) (r : value) (g : grid R) :
  g_params g = [] \/ List.length (g_params g) = List.length t ->
  exists g', mergeResult t r g = inl g' /\
    (g_params g' = [] \/ List.length (g_params g') = List.length t) /\
    List.length (g_result g') = prod_len (g_params g') /\
    grid_value g' t = r.
Proof.
  intros Hw. unfold mergeResult.
  destruct (g_params g) as [|c cs] eqn:Hp.
  - eexists. split; [reflexivity|]. simpl.
    split; [right; apply length_map|].
    split; [rewrite prod_len_singletons; reflexivity|].
    unfold grid_value. simpl. rewrite product_singletons. simpl.
    rewrite tuple_eqb_refl. reflexivity.
  - destruct Hw as [Hw|Hw]; [discriminate|].
    destruct (update_cols_spec (c :: cs) t Hw) as (cols' & E & L & F).
    rewrite E. eexists. split; [reflexivity|]. simpl.
    split; [right; lia|].
    split; [rewrite length_map, length_product; reflexivity|].
    unfold grid_value. simpl.
    destruct (index_of_in t (product cols') (in_product _ _ F)) as (i & Hi & Hn).
    rewrite Hi, nth_error_map, Hn. simpl. apply dict_get_set_same.
Qed.

(** Every successful merge leaves a results list as long as the product of
    the column lengths. *)
Lemma mergeResult_length (t : list string) (r : value) (g g' : grid R) :
  mergeResult t r g = inl g' -> List.length (g_result g') = prod_len (g_params g').
Proof.
  unfold mergeResult. destruct (g_params g) as [|c cs].
  - intros H. injection H as <-. simpl. rewrite prod_len_singletons. reflexivity.
  - destruct (update_cols (c :: cs) t) as [cols'|]; [|discriminate].
    intros H. injection H as <-. simpl.
    rewrite length_map, length_product. reflexivity.
Qed.

Lemma mergeMany_app (t : list string) (rs : list value) (r : value) (g : grid R) :
  mergeMany t (rs ++ [r])%list g =
  match mergeMany t rs g with
  | inl g' => mergeResult t r g'
  | inr e => inr e
  end.
Proof.
  revert g. induction rs as [|r0 rs IH]; intros g; simpl.
  - destruct (mergeResult t r g); reflexivity.
  - destruct (mergeResult t r0 g); [apply IH | reflexivity].
Qed.

Lemma mergeMany_ok (t : list string) (rs : list value) (g : grid R) :
  g_params g = [] \/ List.length (g_params g) = List.length t ->
  exists g', mergeMany t rs g = inl g' /\
    (g_params g' = [] \/ List.length (g_params g') = List.length t).
Proof.
  revert g. induction rs as [|r rs IH]; intros g Hw; simpl.
  - exists g. split; [reflexivity | exact Hw].
  - destruct (mergeResult_ok t r g Hw) as (g1 & E & Hw1 & _).
    rewrite E. apply IH. exact Hw1.
Qed.

(** Claim C6.  For every sequence of [record()] calls that write results
    [rs] and then [r] for the same parameter tuple [t] into one grid (whose
    arity agrees with [t], as the catalog's arity check ensures), every call
    succeeds, the results list has exactly the size of the cartesian
    product of the columns, and the entry at [t]'s product-order position
    is the last value written, [r]. *)
Theorem record_same_tuple_overwrites (t : list string) (rs : list value) (r : value)
  (g : grid R)
  (Harity : g_params g = [] \/ List.length (g_params g) = List.length t) :
  exists g', mergeMany t (rs ++ [r])%list g = inl g' /\
    List.length (g_result g') = prod_len (g_params g') /\
    grid_value g' t = r.
Proof.
  rewrite mergeMany_app.
  destruct (mergeMany_ok t rs g Harity) as (g1 & E & Hw1). rewrite E.
  destruct (mergeResult_ok t r g1 Hw1) as (g2 & E2 & _ & L & V).
  exists g2. split; [exact E2|]. split; [exact L | exact V].
Qed.

(** Claim C5.  The two merges of the spec's example, from columns
    [[a],[b,c]] and results [r1,r2], and the product order of the final
    columns. *)
Theorem merge_spec_examples (r1 r2 r3 r4 : @value R) :
  mergeResult ["a"; "d"] r3 (mkGrid [["a"]; ["b"; "c"]] [r1; r2])
    = inl (mkGrid [["a"]; ["b"; "c"; "d"]] [r1; r2; r3]) /\
  mergeResult ["x"; "b"] r4 (mkGrid [["a"]; ["b"; "c"; "d"]] [r1; r2; r3])
    = inl (mkGrid [["a"; "x"]; ["b"; "c"; "d"]] [r1; r2; r3; r4; None; None]) /\
  product [["a"; "x"]; ["b"; "c"; "d"]]
    = [["a"; "b"]; ["a"; "c"]; ["a"; "d"]; ["x"; "b"]; ["x"; "c"]; ["x"; "d"]].
Proof.
  split; [|split]; reflexivity.
Qed.

End GridProps.

(** Claim C1.  On the grid with columns [[a,x],[b]] and results [1,2],
    merging (a,c) -> 3 in the code yields [1,3,null,null]; the procedure of
    the spec (mapping built from the pre-update columns) yields [1,3,2,null]:
    the code zips the old results against the product of the already
    extended columns, so the result of (x,b) is dropped. *)
Theorem merge_mapping_built_from_updated_columns :
  mergeResult ["a"; "c"] (Some 3%nat) (mkGrid [["a"; "x"]; ["b"]] [Some 1%nat; Some 2%nat])
    = inl (mkGrid [["a"; "x"]; ["b"; "c"]] [Some 1%nat; Some 3%nat; None; None]) /\
  mergeResult_spec ["a"; "c"] (Some 3%nat) (mkGrid [["a"; "x"]; ["b"]] [Some 1%nat; Some 2%nat])
    = inl (mkGrid [["a"; "x"]; ["b"; "c"]] [Some 1%nat; Some 3%nat; Some 2%nat; None]).
Proof.
  split; reflexivity.
Qed.

(** Claim C2.  On the same input the length invariant holds after the merge,
    but the correspondence does not: before the merge the tuple (x,b) is
    associated with 2, after merging (a,c) -> 3 its product-order entry is
    null although (x,b) was not written. *)
Theorem merge_breaks_tuple_correspondence :
  let g := mkGrid [["a"; "x"]; ["b"]] [Some 1%nat; Some 2%nat] in
  List.length (g_result g) = prod_len (g_params g) /\
  grid_value g ["x"; "b"] = Some 2%nat /\
  exists g', mergeResult ["a"; "c"] (Some 3%nat) g = inl g' /\
    List.length (g_result g') = prod_len (g_params g') /\
    grid_value g' ["a"; "c"] = Some 3%nat /\
    grid_value g' ["x"; "b"] = None.
Proof.
  simpl. split; [reflexivity|]. split; [reflexivity|].
  eexists. split; [reflexivity|]. repeat split.
Qed.

(** ** Scans of the lock directory *)

Section LockProps.
Context {R : Type}.

Lemma lookup_time_app (g : string) (a b : list (string * Z)) :
  lookup_time g (a ++ b)%list =
  match lookup_time g a with Some x => Some x | None => lookup_time g b end.
Proof.
  induction a as [|[k v] a IH]; simpl; [reflexivity|].
  destruct (String.eqb g k); [reflexivity | exact IH].
Qed.

Lemma lookup_time_app_other (g f : string) (v : Z) (tm : list (string * Z)) :
  g <> f -> lookup_time g (tm ++ [(f, v)])%list = lookup_time g tm.
Proof.
  intros Hne. rewrite lookup_time_app.
  destruct (lookup_time g tm); [reflexivity|]. simpl.
  destruct (String.eqb g f) eqn:E; [apply String.eqb_eq in E; contradiction | reflexivity].
Qed.

Lemma lookup_time_map_const (f : string) (l : list string) (t0 : Z) :
  In f l -> lookup_time f (map (fun g => (g, t0)) l) = Some t0.
Proof.
  induction l as [|g l IH]; simpl; [tauto|]. intros [<-|H].
  - rewrite String.eqb_refl. reflexivity.
  - destruct (String.eqb f g); [reflexivity | auto].
Qed.

Lemma lookup_time_filter (p : string -> bool) (g : string) (T : list (string * Z)) :
  p g = true -> lookup_time g (filter (fun kv => p (fst kv)) T) = lookup_time g T.
Proof.
  intros Hp. induction T as [|[k v] T IH]; simpl; [reflexivity|].
  destruct (p k) eqn:Pk; simpl.
  - destruct (String.eqb g k); [reflexivity | exact IH].
  - destruct (String.eqb g k) eqn:E; [|exact IH].
    apply String.eqb_eq in E. subst. congruence.
Qed.

Lemma scan_one_this (this : string) (now : Z) acc (f : string) :
  String.eqb f this = true -> scan_one this now acc f = acc.
Proof.
  destruct acc as [tm ex]. unfold scan_one. intros E. rewrite E. reflexivity.
Qed.

Lemma scan_one_other (this : string) (now : Z) (tm : list (string * Z)) ex (f : string) :
  f <> this ->
  scan_one this now (tm, ex) f =
  (let '(tm', t0) := setdefault tm f now in
   (tm', if now - t0 >? lockFileTimeout then (ex ++ [f])%list else ex)).
Proof.
  intros Hne. unfold scan_one. apply String.eqb_neq in Hne. rewrite Hne. reflexivity.
Qed.

Lemma fold_scan_skip_this (this : string) (now : Z) (l : list string) acc :
  fold_left (scan_one this now) l acc =
  fold_left (scan_one this now) (filter (fun f => negb (String.eqb f this)) l) acc.
Proof.
  revert acc. induction l as [|f l IH]; intros acc; [reflexivity|].
  cbn [fold_left filter]. destruct (String.eqb f this) eqn:E; cbn [negb fold_left].
  - rewrite scan_one_this by exact E. apply IH.
  - apply IH.
Qed.

(** The [for lockFile in allLockFiles] loop over the other markers: new
    markers get the current time, and exactly the markers first seen more
    than [lockFileTimeout] ago are collected as expired. *)
Lemma fold_scan (this : string) (now : Z) (l : list string)
  (tm : list (string * Z)) (ex : list string) :
  NoDup l -> (forall f, In f l -> f <> this) ->
  fold_left (scan_one this now) l (tm, ex) =
  ((tm ++ map (fun f => (f, now)) (filter (is_new tm) l))%list,
   (ex ++ filter (is_expired tm now) l)%list).
Proof.
  revert tm ex. induction l as [|f l IH]; intros tm ex Hnd Hne.
  - simpl. rewrite !app_nil_r. reflexivity.
  - inversion Hnd as [|? ? Hf Hnd']; subst.
    cbn [fold_left filter map].
    rewrite scan_one_other by (apply Hne; left; reflexivity).
    unfold setdefault.
    destruct (lookup_time f tm) as [t0|] eqn:L.
    + assert (N : is_new tm f = false) by (unfold is_new; rewrite L; reflexivity).
      assert (X : is_expired tm now f = (now - t0 >? lockFileTimeout))
        by (unfold is_expired; rewrite L; reflexivity).
      rewrite N, X.
      rewrite IH by (auto; intros g Hg; apply Hne; right; exact Hg).
      destruct (now - t0 >? lockFileTimeout); try rewrite <- app_assoc; reflexivity.
    + assert (N : is_new tm f = true) by (unfold is_new; rewrite L; reflexivity).
      assert (X : is_expired tm now f = false)
        by (unfold is_expired; rewrite L; reflexivity).
      rewrite N, X, Z.sub_diag. cbn [Z.gtb Z.compare lockFileTimeout].
      rewrite IH by (auto; intros g Hg; apply Hne; right; exact Hg).
      assert (Hn : filter (is_new (tm ++ [(f, now)])) l = filter (is_new tm) l).
      { apply filter_ext_in. intros g Hg. unfold is_new.
        rewrite lookup_time_app_other; [reflexivity|]. intros ->. contradiction. }
      assert (He : filter (is_expired (tm ++ [(f, now)]) now) l = filter (is_expired tm now) l).
      { apply filter_ext_in. intros g Hg. unfold is_expired.
        rewrite lookup_time_app_other; [reflexivity|]. intros ->. contradiction. }
      rewrite Hn, He. cbn [map]. rewrite <- app_assoc. reflexivity.
Qed.

Lemma set_files_twice (w : world R) (a b : list string) :
  set_files (set_files w a) b = set_files w b.
Proof. destruct w; reflexivity. Qed.

Lemma removeFiles_ok (ex : list string) (w : world R) :
  NoDup ex -> (forall f, In f ex -> In f (files w)) ->
  exists fs, removeFiles ex w = Ok tt (set_files w fs) /\
    (forall g, In g fs <-> In g (files w) /\ ~ In g ex).
Proof.
  revert w. induction ex as [|f ex IH]; intros w Hnd Hin; simpl.
  - exists (files w). split; [destruct w; reflexivity|]. intros g. tauto.
  - inversion Hnd as [|? ? Hf Hnd']; subst.
    unfold removeFile.
    assert (M : mem f (files w) = true) by (apply mem_In, Hin; left; reflexivity).
    rewrite M.
    destruct (IH (set_files w (remove string_dec f (files w))) Hnd') as (fs & E & Hfs).
    { intros g Hg. simpl. apply in_in_remove.
      - intros ->. contradiction.
      - apply Hin. right. exact Hg. }
    rewrite E, set_files_twice. exists fs. split; [reflexivity|].
    intros g. rewrite Hfs. simpl. split.
    + intros [H1 H2]. apply in_remove in H1. destruct H1 as [H1 H3].
      split; [exact H1|]. intros [->|H]; [apply H3; reflexivity | contradiction].
    + intros [H1 H2]. split.
      * apply in_in_remove; [|exact H1]. intros ->. apply H2. left. reflexivity.
      * intros H. apply H2. right. exact H.
Qed.

Lemma removeFiles_subset (ex : list string) (w w' : world R) :
  removeFiles ex w = Ok tt w' -> forall g, In g (files w') -> In g (files w).
Proof.
  revert w. induction ex as [|f ex IH]; intros w E g Hg; simpl in E.
  - injection E as <-. exact Hg.
  - unfold removeFile in E. destruct (mem f (files w)); simpl in E; [|discriminate].
    pose proof (IH _ E g Hg) as E2. simpl in E2.
    apply in_remove in E2. tauto.
Qed.

Lemma others_NoDup (dirPath name : string) (fs : list string) :
  NoDup fs -> NoDup (others dirPath name fs).
Proof.
  intros H. unfold others, glob_prefix. apply NoDup_filter, NoDup_filter, H.
Qed.

Lemma others_In (dirPath name : string) (fs : list string) (f : string) :
  In f (others dirPath name fs) <->
  In f (glob_prefix (path_join dirPath lockFilePrefix) fs) /\ f <> path_join dirPath name.
Proof.
  unfold others. rewrite filter_In, negb_true_iff, String.eqb_neq. tauto.
Qed.

Lemma glob_In (pat : string) (fs : list string) (f : string) :
  In f (glob_prefix pat fs) -> In f fs.
Proof.
  unfold glob_prefix. rewrite filter_In. tauto.
Qed.

Lemma filter_all_true {A} (p : A -> bool) (l : list A) :
  (forall x, In x l -> p x = true) -> filter p l = l.
Proof.
  induction l as [|x l IH]; intros H; simpl; [reflexivity|].
  rewrite (H x (or_introl eq_refl)), IH; [reflexivity|].
  intros y Hy. apply H. right. exact Hy.
Qed.

Lemma filter_all_false {A} (p : A -> bool) (l : list A) :
  (forall x, In x l -> p x = false) -> filter p l = [].
Proof.
  induction l as [|x l IH]; intros H; simpl; [reflexivity|].
  rewrite (H x (or_introl eq_refl)). apply IH.
  intros y Hy. apply H. right. exact Hy.
Qed.

(** [__updateOtherLockfileTimes] in closed form, for a directory listing
    without duplicates. *)
Lemma scan_eq (dirPath name : string) (T : list (string * Z)) (w : world R) :
  NoDup (files w) ->
  updateOtherLockfileTimes dirPath name T w =
  let times := filter (fun kv => mem (fst kv)
                 (glob_prefix (path_join dirPath lockFilePrefix) (files w))) T in
  match removeFiles (filter (is_expired times (clock w)) (others dirPath name (files w))) w with
  | Ok _ w' =>
      Ok (times ++ map (fun f => (f, clock w))
                    (filter (is_new times) (others dirPath name (files w))))%list w'
  | Err e w' => Err e w'
  end.
Proof.
  intros Hnd. unfold updateOtherLockfileTimes. cbv zeta.
  rewrite fold_scan_skip_this.
  change (filter (fun f => negb (String.eqb f (path_join dirPath name)))
            (glob_prefix (path_join dirPath lockFilePrefix) (files w)))
    with (others dirPath name (files w)).
  rewrite fold_scan.
  - reflexivity.
  - apply others_NoDup. exact Hnd.
  - intros f Hf. apply others_In in Hf. tauto.
Qed.

Lemma removeFiles_removed (ex : list string) (w w' : world R) (g : string) :
  removeFiles ex w = Ok tt w' -> In g (files w) -> ~ In g (files w') -> In g ex.
Proof.
  revert w. induction ex as [|f ex IH]; intros w E Hin Hout; simpl in E.
  - injection E as <-. contradiction.
  - unfold removeFile in E. destruct (mem f (files w)); simpl in E; [|discriminate].
    destruct (string_dec g f) as [->|Hne]; [left; reflexivity|].
    right. apply (IH _ E); [|exact Hout]. simpl. apply in_in_remove; assumption.
Qed.

(** A scan deletes exactly the other markers first seen more than
    [lockFileTimeout] earlier, and records the discovery time of the others. *)
Lemma scan_deletes_stale (dirPath name : string) (T : list (string * Z)) (w : world R) :
  NoDup (files w) ->
  exists T' w', updateOtherLockfileTimes dirPath name T w = Ok T' w' /\
    forall f, In f (others dirPath name (files w)) ->
      (In f (files w') <->
         ~ (exists t0, lookup_time f T = Some t0 /\ clock w - t0 > lockFileTimeout)) /\
      lookup_time f T' =
        Some (match lookup_time f T with Some t0 => t0 | None => clock w end).
Proof.
  intros Hnd. rewrite scan_eq by exact Hnd. cbv zeta.
  set (all := glob_prefix (path_join dirPath lockFilePrefix) (files w)).
  set (times := filter (fun kv => mem (fst kv) all) T).
  set (O := others dirPath name (files w)).
  assert (HO : NoDup O) by (apply others_NoDup; exact Hnd).
  destruct (removeFiles_ok (filter (is_expired times (clock w)) O) w) as (fs & E & Hfs).
  { apply NoDup_filter. exact HO. }
  { intros f Hf. apply filter_In in Hf. destruct Hf as [Hf _].
    apply others_In in Hf. apply (glob_In _ _ _ (proj1 Hf)). }
  rewrite E. do 2 eexists. split; [reflexivity|].
  intros f Hf.
  assert (Hall : mem f all = true).
  { apply mem_In. apply others_In in Hf. exact (proj1 Hf). }
  assert (Hlk : lookup_time f times = lookup_time f T).
  { apply (lookup_time_filter (fun k => mem k all)). exact Hall. }
  split.
  - rewrite Hfs, filter_In. unfold is_expired. rewrite Hlk.
    assert (Hfiles : In f (files w)).
    { apply others_In in Hf. apply (glob_In _ _ _ (proj1 Hf)). }
    split.
    + intros [_ H] (t0 & Ht0 & Hgt). apply H. split; [exact Hf|].
      rewrite Ht0. apply Z.gtb_lt. lia.
    + intros H. split; [exact Hfiles|]. intros [_ H2]. apply H.
      destruct (lookup_time f T) as [t0|]; [|discriminate].
      exists t0. split; [reflexivity|]. apply Z.gtb_lt in H2. lia.
  - rewrite lookup_time_app, Hlk.
    destruct (lookup_time f T) as [t0|] eqn:L; [reflexivity|].
    apply lookup_time_map_const. apply filter_In. split; [exact Hf|].
    unfold is_new. rewrite Hlk. try rewrite L. reflexivity.
Qed.

(** Markers of another holder disappear from a scan's result only when the
    scanning holder first saw them more than [lockFileTimeout] before. *)
Lemma scan_removes_only_stale (dirPath name : string) (T T' : list (string * Z))
  (w w' : world R) (f : string) :
  NoDup (files w) ->
  updateOtherLockfileTimes dirPath name T w = Ok T' w' ->
  In f (others dirPath name (files w)) -> ~ In f (files w') ->
  exists t0, lookup_time f T = Some t0 /\ clock w - t0 > lockFileTimeout.
Proof.
  intros Hnd E Hf Hout.
  destruct (scan_deletes_stale dirPath name T w Hnd) as (T2 & w2 & E2 & H).
  rewrite E in E2. injection E2 as <- <-.
  destruct (H f Hf) as [Hin _].
  destruct (lookup_time f T) as [t0|] eqn:L.
  - destruct (Z_gt_dec (clock w - t0) lockFileTimeout) as [G|G].
    + exists t0. split; [reflexivity | exact G].
    + exfalso. apply Hout, Hin. intros (t1 & E1 & G1).
      injection E1 as <-. contradiction.
  - exfalso. apply Hout, Hin. intros (t1 & E1 & _). discriminate.
Qed.

Lemma set_clock_twice (w : world R) (a b : Z) : set_clock (set_clock w a) b = set_clock w b.
Proof. destruct w; reflexivity. Qed.

Lemma set_clock_same (w : world R) : set_clock w (clock w) = w.
Proof. destruct w; reflexivity. Qed.

Lemma glob_sub (pat : string) (fs fs' : list string) :
  (forall g, In g fs' -> In g fs) ->
  forall g, In g (glob_prefix pat fs') -> In g (glob_prefix pat fs).
Proof.
  intros H g. unfold glob_prefix. rewrite !filter_In. intros [H1 H2]. auto.
Qed.

Lemma createLockfile_files (dirPath name : string) (w : world R) (g : string) :
  In g (files (createLockfile dirPath name w)) <-> In g (files w) \/ g = path_join dirPath name.
Proof.
  unfold createLockfile. destruct (mem (path_join dirPath name) (files w)) eqn:M; simpl.
  - apply mem_In in M. split; [auto|]. intros [H| ->]; assumption.
  - rewrite in_app_iff. simpl. split; intros [H|H]; auto; destruct H; auto; contradiction.
Qed.

Lemma createLockfile_catalog (dirPath name : string) (w : world R) :
  catalog (createLockfile dirPath name w) = catalog w.
Proof. unfold createLockfile. destruct (mem _ _); reflexivity. Qed.

Lemma scan_first (dirPath name : string) (w : world R) :
  NoDup (files w) ->
  updateOtherLockfileTimes dirPath name [] w =
  Ok (map (fun f => (f, clock w)) (others dirPath name (files w))) w.
Proof.
  intros Hnd. rewrite scan_eq by exact Hnd. cbv zeta. cbn [filter app].
  rewrite (filter_all_false (is_expired [] (clock w))) by reflexivity.
  rewrite (filter_all_true (is_new [])) by reflexivity.
  reflexivity.
Qed.

Lemma scan_uniform_times (dirPath name : string) (t0 : Z) (T : list (string * Z)) (w : world R) :
  T = map (fun f => (f, t0)) (others dirPath name (files w)) ->
  filter (fun kv => mem (fst kv) (glob_prefix (path_join dirPath lockFilePrefix) (files w))) T = T /\
  filter (is_new T) (others dirPath name (files w)) = [] /\
  (forall f, In f (others dirPath name (files w)) -> lookup_time f T = Some t0).
Proof.
  intros HT.
  assert (Hl : forall f, In f (others dirPath name (files w)) -> lookup_time f T = Some t0).
  { intros f Hf. rewrite HT. apply lookup_time_map_const. exact Hf. }
  split; [|split; [|exact Hl]].
  - apply filter_all_true. intros [k v] Hkv. rewrite HT in Hkv.
    apply in_map_iff in Hkv. destruct Hkv as (f & E & Hf). injection E as <- <-.
    apply mem_In. apply others_In in Hf. exact (proj1 Hf).
  - apply filter_all_false. intros f Hf. unfold is_new. rewrite (Hl f Hf). reflexivity.
Qed.

(** A scan while every other marker is younger than the timeout changes
    nothing. *)
Lemma scan_young (dirPath name : string) (t0 : Z) (T : list (string * Z)) (w : world R) :
  NoDup (files w) ->
  T = map (fun f => (f, t0)) (others dirPath name (files w)) ->
  clock w - t0 <= lockFileTimeout ->
  updateOtherLockfileTimes dirPath name T w = Ok T w.
Proof.
  intros Hnd HT Hc. rewrite scan_eq by exact Hnd. cbv zeta.
  destruct (scan_uniform_times dirPath name t0 T w HT) as (H1 & H2 & Hl).
  rewrite H1, H2.
  rewrite (filter_all_false (is_expired T (clock w))).
  - simpl. rewrite app_nil_r. reflexivity.
  - intros f Hf. unfold is_expired. rewrite (Hl f Hf).
    destruct (clock w - t0 >? lockFileTimeout) eqn:G; [|reflexivity].
    apply Z.gtb_lt in G. lia.
Qed.

(** Once they are older than the timeout, all of them are deleted. *)
Lemma scan_stale (dirPath name : string) (t0 : Z) (T : list (string * Z)) (w : world R) :
  NoDup (files w) ->
  T = map (fun f => (f, t0)) (others dirPath name (files w)) ->
  clock w - t0 > lockFileTimeout ->
  exists fs, updateOtherLockfileTimes dirPath name T w = Ok T (set_files w fs) /\
    (forall g, In g fs <-> In g (files w) /\ ~ In g (others dirPath name (files w))).
Proof.
  intros Hnd HT Hc. rewrite scan_eq by exact Hnd. cbv zeta.
  destruct (scan_uniform_times dirPath name t0 T w HT) as (H1 & H2 & Hl).
  rewrite H1, H2.
  rewrite (filter_all_true (is_expired T (clock w))).
  - destruct (removeFiles_ok (others dirPath name (files w)) w) as (fs & E & Hfs).
    + apply others_NoDup. exact Hnd.
    + intros f Hf. apply others_In in Hf. apply (glob_In _ _ _ (proj1 Hf)).
    + rewrite E. exists fs. split; [|exact Hfs]. simpl. rewrite app_nil_r. reflexivity.
  - intros f Hf. unfold is_expired. rewrite (Hl f Hf). apply Z.gtb_lt. lia.
Qed.

(** A scan that sees no other marker, and no recorded one, returns an empty
    dict and changes nothing. *)
Lemma scan_quiet (dirPath name : string) (T : list (string * Z)) (w : world R) :
  (forall g, In g (glob_prefix (path_join dirPath lockFilePrefix) (files w)) ->
     g = path_join dirPath name) ->
  (forall kv, In kv T -> ~ In (fst kv) (glob_prefix (path_join dirPath lockFilePrefix) (files w))) ->
  updateOtherLockfileTimes dirPath name T w = Ok [] w.
Proof.
  intros Hg HT. unfold updateOtherLockfileTimes. cbv zeta.
  rewrite fold_scan_skip_this.
  rewrite (filter_all_false (fun f => negb (String.eqb f (path_join dirPath name)))).
  - rewrite filter_all_false; [reflexivity|].
    intros kv Hkv. destruct (mem (fst kv) _) eqn:M; [|reflexivity].
    apply mem_In in M. exfalso. exact (HT kv Hkv M).
  - intros f Hf. rewrite (Hg f Hf), String.eqb_refl. reflexivity.
Qed.

Lemma others_nil_of_quiet (dirPath name : string) (fs : list string) :
  (forall g, In g (glob_prefix (path_join dirPath lockFilePrefix) fs) ->
     g = path_join dirPath name) ->
  others dirPath name fs = [].
Proof.
  intros Hg. unfold others. apply filter_all_false.
  intros f Hf. rewrite (Hg f Hf), String.eqb_refl. reflexivity.
Qed.

Lemma lock_run_S (env : world R -> world R) (dirPath name : string) (f : nat) (s : lstate) :
  lock_run env dirPath name (S f) s =
  match lock_step env dirPath name s with
  | LNext s' => lock_run env dirPath name f s'
  | LDone w => Some (Ok tt w)
  | LFail e w => Some (Err e w)
  end.
Proof. reflexivity. Qed.

Lemma lock_step_top (env : world R -> world R) (dirPath name : string) T (w : world R) :
  lock_step env dirPath name (mkL LTop T w) =
  match updateOtherLockfileTimes dirPath name T (env w) with
  | Ok t w' => LNext (mkL LWait t w')
  | Err e w' => LFail e w'
  end.
Proof. reflexivity. Qed.

Lemma lock_step_wait_cons (env : world R -> world R) (dirPath name : string) x xs (w : world R) :
  lock_step env dirPath name (mkL LWait (x :: xs) w) =
  match updateOtherLockfileTimes dirPath name (x :: xs) (env (sleep poll_interval w)) with
  | Ok t w' => LNext (mkL LWait t w')
  | Err e w' => LFail e w'
  end.
Proof. reflexivity. Qed.

Lemma lock_step_wait_nil_done (env : world R -> world R) (dirPath name : string) (w w' : world R) :
  updateOtherLockfileTimes dirPath name [] (env (createLockfile dirPath name w)) = Ok [] w' ->
  lock_step env dirPath name (mkL LWait [] w) = LDone w'.
Proof.
  intros E. unfold lock_step. cbv beta zeta. cbn [l_phase l_times l_world].
  rewrite E. reflexivity.
Qed.

Lemma lock_run_next (env : world R -> world R) (dirPath name : string) (f : nat) (s s' : lstate) :
  lock_step env dirPath name s = LNext s' ->
  lock_run env dirPath name (S f) s = lock_run env dirPath name f s'.
Proof. intros E. simpl. rewrite E. reflexivity. Qed.

Lemma lock_run_done (env : world R -> world R) (dirPath name : string) (f : nat) (s : lstate) w :
  lock_step env dirPath name s = LDone w ->
  lock_run env dirPath name (S f) s = Some (Ok tt w).
Proof. intros E. simpl. rewrite E. reflexivity. Qed.

Lemma lock_step_top_ok (env : world R -> world R) (dirPath name : string) T t (w w' : world R) :
  updateOtherLockfileTimes dirPath name T (env w) = Ok t w' ->
  lock_step env dirPath name (mkL LTop T w) = LNext (mkL LWait t w').
Proof. intros E. rewrite lock_step_top, E. reflexivity. Qed.

Lemma lock_step_wait_cons_ok (env : world R -> world R) (dirPath name : string) x xs t
  (w w' : world R) :
  updateOtherLockfileTimes dirPath name (x :: xs) (env (sleep poll_interval w)) = Ok t w' ->
  lock_step env dirPath name (mkL LWait (x :: xs) w) = LNext (mkL LWait t w').
Proof. intros E. rewrite lock_step_wait_cons, E. reflexivity. Qed.

Lemma scan_subset (dirPath name : string) T T' (w w' : world R) :
  updateOtherLockfileTimes dirPath name T w = Ok T' w' ->
  forall g, In g (files w') -> In g (files w).
Proof.
  unfold updateOtherLockfileTimes. cbv zeta.
  destruct (fold_left _ _ _) as [tm ex].
  destruct (removeFiles ex w) as [[] w1|e w1] eqn:E; intros H; [|discriminate].
  injection H as _ <-. exact (removeFiles_subset ex w w1 E).
Qed.

(** After an acquirer's scans, a glob sees nothing but its own marker when
    every remaining path is either its own marker or a path that is not
    another holder's marker. *)
Lemma quiet_after (dirPath name : string) (fs fs' : list string) :
  (forall g, In g fs' ->
     (In g fs /\ ~ In g (others dirPath name fs)) \/ g = path_join dirPath name) ->
  forall g, In g (glob_prefix (path_join dirPath lockFilePrefix) fs') ->
    g = path_join dirPath name.
Proof.
  intros H g Hg.
  destruct (H g (glob_In _ _ _ Hg)) as [[Hin Hno]| ->]; [|reflexivity].
  destruct (string_dec g (path_join dirPath name)) as [E|Hne]; [exact E|].
  exfalso. apply Hno. apply others_In. split; [|exact Hne].
  unfold glob_prefix in *. rewrite filter_In in *. tauto.
Qed.

Section PassiveRun.
(** The other processes leave the store alone. *)
Variable env : world R -> world R.
Hypothesis Henv : forall w, env w = w.

Lemma wait_young_run (dirPath name : string) (n m : nat) (t0 : Z) (T : list (string * Z))
  (w : world R) :
  NoDup (files w) ->
  T = map (fun f => (f, t0)) (others dirPath name (files w)) -> T <> [] ->
  clock w + poll_interval * Z.of_nat n - t0 <= lockFileTimeout ->
  lock_run env dirPath name (n + m) (mkL LWait T w) =
  lock_run env dirPath name m
    (mkL LWait T (set_clock w (clock w + poll_interval * Z.of_nat n))).
Proof.
  revert w. induction n as [|n IH]; intros w Hnd HT Hne Hc.
  - cbn [Nat.add Z.of_nat]. rewrite Z.mul_0_r, Z.add_0_r, set_clock_same. reflexivity.
  - destruct T as [|x xs]; [contradiction|].
    rewrite Nat.add_succ_l.
    assert (Hs : clock (sleep poll_interval w) = clock w + poll_interval) by reflexivity.
    rewrite Nat2Z.inj_succ in Hc. unfold poll_interval, lockFileTimeout in *.
    rewrite (lock_run_next _ _ _ _ _ (mkL LWait (x :: xs) (sleep poll_interval w))).
    2:{ apply lock_step_wait_cons_ok. rewrite Henv.
        apply (scan_young dirPath name t0); [exact Hnd | exact HT | cbn [sleep clock set_clock]; unfold poll_interval, lockFileTimeout in *; lia]. }
    rewrite (IH (sleep poll_interval w)); [| exact Hnd | exact HT | exact Hne | cbn [sleep clock set_clock]; unfold poll_interval in *; lia].
    unfold sleep. rewrite set_clock_twice.
    do 3 f_equal. cbn [clock set_clock]. unfold poll_interval. lia.
Qed.

(** With no new markers appearing, [__getLock] acquires the lock within 29
    steps: other markers are waited on, deleted once older than the
    timeout, and the own marker is then created and kept. *)
Lemma getLock_acquires (dirPath name : string) (w : world R) :
  NoDup (files w) ->
  exists w', getLock env 29 dirPath name w = Some (Ok tt w') /\
    In (path_join dirPath name) (files w') /\ others dirPath name (files w') = [].
Proof.
  intros Hnd. unfold getLock.
  set (this := path_join dirPath name).
  rewrite (lock_run_next _ _ _ _ _
             (mkL LWait (map (fun f => (f, clock w)) (others dirPath name (files w))) w)).
  2:{ apply lock_step_top_ok. rewrite Henv. apply scan_first. exact Hnd. }
  destruct (others dirPath name (files w)) as [|x xs] eqn:HO.
  - (* no other marker: create ours at once *)
    set (w1 := createLockfile dirPath name w).
    assert (Hq : forall g, In g (glob_prefix (path_join dirPath lockFilePrefix) (files w1)) -> g = this).
    { apply (quiet_after dirPath name (files w)). intros g Hg.
      apply createLockfile_files in Hg. destruct Hg as [Hg|Hg]; [left|right; exact Hg].
      rewrite HO. split; [exact Hg | intros []]. }
    exists w1. split.
    + apply lock_run_done. apply lock_step_wait_nil_done. rewrite Henv.
      apply scan_quiet; [exact Hq | intros kv []].
    + split; [apply createLockfile_files; right; reflexivity|].
      apply others_nil_of_quiet. exact Hq.
  - (* wait 25 polls, delete the stale markers, rescan, create ours *)
    set (T := map (fun f => (f, clock w)) (x :: xs)).
    change 28%nat with (25 + 3)%nat.
    rewrite (wait_young_run dirPath name 25 3 (clock w) T w Hnd);
      [| rewrite HO; reflexivity | discriminate | unfold poll_interval, lockFileTimeout; lia].
    set (w25 := set_clock w (clock w + poll_interval * Z.of_nat 25)).
    destruct (scan_stale dirPath name (clock w) T (sleep poll_interval w25)) as (fs & E26 & Hfs).
    { exact Hnd. }
    { change (files (sleep poll_interval w25)) with (files w). rewrite HO. reflexivity. }
    { cbn [sleep clock set_clock w25]. unfold poll_interval, lockFileTimeout. lia. }
    change (files (sleep poll_interval w25)) with (files w) in Hfs.
    set (w26 := set_files (sleep poll_interval w25) fs).
    rewrite (lock_run_next _ _ _ _ _ (mkL LWait T w26)).
    2:{ unfold T. cbn [map]. apply lock_step_wait_cons_ok. rewrite Henv. exact E26. }
    assert (Hq26 : forall g, In g (glob_prefix (path_join dirPath lockFilePrefix) fs) -> g = this).
    { apply (quiet_after dirPath name (files w)). intros g Hg. left. apply Hfs. exact Hg. }
    set (w27 := sleep poll_interval w26).
    rewrite (lock_run_next _ _ _ _ _ (mkL LWait [] w27)).
    2:{ unfold T. cbn [map]. apply lock_step_wait_cons_ok. rewrite Henv.
        apply scan_quiet; [exact Hq26|].
        intros kv Hkv Hg. apply glob_In in Hg. apply Hfs in Hg.
        apply (proj2 Hg). rewrite HO.
        change (In kv (map (fun f => (f, clock w)) (x :: xs))) in Hkv.
        apply in_map_iff in Hkv. destruct Hkv as (f & <- & Hf). exact Hf. }
    set (w28 := createLockfile dirPath name w27).
    assert (Hq28 : forall g, In g (glob_prefix (path_join dirPath lockFilePrefix) (files w28)) -> g = this).
    { apply (quiet_after dirPath name (files w)). intros g Hg.
      apply createLockfile_files in Hg. destruct Hg as [Hg|Hg]; [left|right; exact Hg].
      apply Hfs. exact Hg. }
    exists w28. split.
    + apply lock_run_done. apply lock_step_wait_nil_done. rewrite Henv.
      apply scan_quiet; [exact Hq28 | intros kv []].
    + split; [apply createLockfile_files; right; reflexivity|].
      apply others_nil_of_quiet. exact Hq28.
Qed.

End PassiveRun.
End LockProps.

(** ** Frame properties of the lock loop and of [addResult] *)

Section Frame.
Context {R : Type}.

Lemma sleep_files (ms : Z) (w : world R) : files (sleep ms w) = files w.
Proof. reflexivity. Qed.

(** Every step of the lock loop touches only the files and the clock, so
    any part of the store that those leave alone is kept, as long as the
    other processes keep it too. *)
Section ProjFrame.
Variable X : Type.
Variable proj : world R -> X.
Hypothesis Hfiles : forall w fs, proj (set_files w fs) = proj w.
Hypothesis Hclock : forall w t, proj (set_clock w t) = proj w.

Lemma sleep_proj (ms : Z) (w : world R) : proj (sleep ms w) = proj w.
Proof. apply Hclock. Qed.

Lemma createLockfile_proj (dirPath name : string) (w : world R) :
  proj (createLockfile dirPath name w) = proj w.
Proof. unfold createLockfile. destruct (mem _ _); [reflexivity | apply Hfiles]. Qed.

Lemma removeFile_proj (f : string) (w : world R) :
  proj (res_world (removeFile f w)) = proj w.
Proof. unfold removeFile. destruct (mem f (files w)); [apply Hfiles | reflexivity]. Qed.

Lemma removeFiles_proj (fs : list string) (w : world R) :
  proj (res_world (removeFiles fs w)) = proj w.
Proof.
  revert w. induction fs as [|f fs IH]; intros w; [reflexivity|]. simpl.
  pose proof (removeFile_proj f w) as C.
  destruct (removeFile f w) as [u w1|e w1]; simpl in *; [rewrite IH|]; exact C.
Qed.

Lemma scan_proj (dirPath name : string) T (w : world R) :
  proj (res_world (updateOtherLockfileTimes dirPath name T w)) = proj w.
Proof.
  unfold updateOtherLockfileTimes. cbv zeta.
  destruct (fold_left _ _ _) as [tm ex].
  pose proof (removeFiles_proj ex w) as C.
  destruct (removeFiles ex w); exact C.
Qed.

Lemma releaseLock_proj (dirPath name : string) (w : world R) :
  proj (res_world (releaseLock dirPath name w)) = proj w.
Proof. apply removeFile_proj. Qed.

Lemma random_proj (w : world R) : proj (res_world (random_random w)) = proj w.
Proof. reflexivity. Qed.

Ltac frame_case :=
  match goal with
  | |- context [match updateOtherLockfileTimes ?d ?n ?T ?w with _ => _ end] =>
      let C := fresh "C" in
      pose proof (scan_proj d n T w) as C;
      destruct (updateOtherLockfileTimes d n T w); cbn [res_world] in C
  | |- context [match releaseLock ?d ?n ?w with _ => _ end] =>
      let C := fresh "C" in
      pose proof (releaseLock_proj d n w) as C;
      destruct (releaseLock d n w); cbn [res_world] in C
  | |- context [match random_random ?w with _ => _ end] =>
      let C := fresh "C" in
      pose proof (random_proj w) as C;
      destruct (random_random w); cbn [res_world] in C
  | |- context [match ?l with [] => _ | _ :: _ => _ end] => destruct l
  end.

Variable env : world R -> world R.
Hypothesis Henv : forall w, proj (env w) = proj w.

Lemma lock_step_proj (dirPath name : string) (s : lstate) :
  match lock_step env dirPath name s with
  | LNext s' => proj (l_world s') = proj (l_world s)
  | LDone w => proj w = proj (l_world s)
  | LFail _ w => proj w = proj (l_world s)
  end.
Proof.
  destruct s as [[|] T w]; unfold lock_step; cbv beta zeta; cbn [l_phase l_times l_world];
    repeat frame_case; cbn [l_world];
    rewrite ?Henv, ?sleep_proj, ?createLockfile_proj in *; congruence.
Qed.

Lemma lock_run_proj (dirPath name : string) (fuel : nat) (s : lstate) (r : res R unit) :
  lock_run env dirPath name fuel s = Some r -> proj (res_world r) = proj (l_world s).
Proof.
  revert s. induction fuel as [|fuel IH]; intros s H; [discriminate|].
  rewrite lock_run_S in H. pose proof (lock_step_proj dirPath name s) as C.
  destruct (lock_step env dirPath name s) as [s'|w'|e w'].
  - rewrite <- C. exact (IH s' H).
  - injection H as <-. exact C.
  - injection H as <-. exact C.
Qed.

Lemma getLock_proj (fuel : nat) (dirPath name : string) (w : world R) (r : res R unit) :
  getLock env fuel dirPath name w = Some r -> proj (res_world r) = proj w.
Proof. apply lock_run_proj. Qed.

End ProjFrame.

Lemma getLock_catalog (env : world R -> world R) (Henv : forall w, catalog (env w) = catalog w)
  (fuel : nat) (dirPath name : string) (w : world R) (r : res R unit) :
  getLock env fuel dirPath name w = Some r -> catalog (res_world r) = catalog w.
Proof. apply getLock_proj; [reflexivity | reflexivity | exact Henv]. Qed.

Lemma getLock_conf (env : world R -> world R) (Henv : forall w, conf (env w) = conf w)
  (fuel : nat) (dirPath name : string) (w : world R) (r : res R unit) :
  getLock env fuel dirPath name w = Some r -> conf (res_world r) = conf w.
Proof. apply getLock_proj; [reflexivity | reflexivity | exact Henv]. Qed.

Lemma lookup_time_In (k : string) (v : Z) (m : list (string * Z)) :
  lookup_time k m = Some v -> In (k, v) m.
Proof.
  induction m as [|[k' v'] m IH]; simpl; [discriminate|].
  destruct (String.eqb k k') eqn:E.
  - intros H. injection H as <-. apply String.eqb_eq in E. subst. left. reflexivity.
  - intros H. right. exact (IH H).
Qed.

(** A scan started with no recorded times expires nothing. *)
Lemma fold_scan_fresh (this : string) (now : Z) (l : list string) (tm : list (string * Z)) :
  (forall kv, In kv tm -> snd kv = now) ->
  snd (fold_left (scan_one this now) l (tm, [])) = [].
Proof.
  revert tm. induction l as [|x l IH]; intros tm Htm; [reflexivity|].
  cbn [fold_left]. unfold scan_one at 2.
  destruct (String.eqb x this); [exact (IH tm Htm)|].
  unfold setdefault. destruct (lookup_time x tm) as [v|] eqn:L.
  - apply lookup_time_In, Htm in L. cbn [snd] in L. subst v.
    rewrite Z.sub_diag. cbn. exact (IH tm Htm).
  - rewrite Z.sub_diag. cbn. apply IH.
    intros kv Hkv. apply in_app_iff in Hkv. destruct Hkv as [Hkv|[<-|[]]]; [exact (Htm kv Hkv)|reflexivity].
Qed.

Lemma scan_nil_world (dirPath name : string) (T' : list (string * Z)) (w w' : world R) :
  updateOtherLockfileTimes dirPath name [] w = Ok T' w' -> w' = w.
Proof.
  unfold updateOtherLockfileTimes. cbv zeta. cbn [filter].
  pose proof (fold_scan_fresh (path_join dirPath name) (clock w)
                (glob_prefix (path_join dirPath lockFilePrefix) (files w)) [] (fun _ H => match H with end)) as F.
  destruct (fold_left _ _ _) as [tm ex]. cbn [snd] in F. subst ex.
  cbn [removeFiles]. intros H. injection H as _ <-. reflexivity.
Qed.

Section MarkerFrame.
(** The other processes do not delete our marker. *)
Variable env : world R -> world R.
Variables dirPath name : string.
Hypothesis Hkeep :
  forall w, In (path_join dirPath name) (files w) -> In (path_join dirPath name) (files (env w)).

Lemma lock_step_done_marker (s : lstate) (w' : world R) :
  lock_step env dirPath name s = LDone w' -> In (path_join dirPath name) (files w').
Proof.
  destruct s as [[|] T w]; unfold lock_step; cbv beta zeta; cbn [l_phase l_times l_world].
  - destruct (updateOtherLockfileTimes _ _ _ _); discriminate.
  - destruct T as [|x xs].
    + destruct (updateOtherLockfileTimes dirPath name [] (env (createLockfile dirPath name w)))
        as [t w1|e w1] eqn:E; [|discriminate].
      destruct t as [|k t]; [|
        destruct (releaseLock _ _ _); [destruct (random_random _); [destruct (random_random _)|]|];
        discriminate].
      intros H. injection H as <-. apply scan_nil_world in E. subst w1.
      apply Hkeep. apply createLockfile_files. right. reflexivity.
    + destruct (updateOtherLockfileTimes _ _ _ _); discriminate.
Qed.

Lemma getLock_marker (fuel : nat) (w w1 : world R) :
  getLock env fuel dirPath name w = Some (Ok tt w1) -> In (path_join dirPath name) (files w1).
Proof.
  unfold getLock. generalize (mkL LTop [] w) as s. induction fuel as [|fuel IH]; intros s H;
    [discriminate|].
  rewrite lock_run_S in H. destruct (lock_step env dirPath name s) as [s'|w'|e w'] eqn:E.
  - exact (IH s' H).
  - injection H as <-. exact (lock_step_done_marker s w' E).
  - discriminate.
Qed.

End MarkerFrame.

Lemma lbind_ok {A B} (c : LM R A) (k : A -> LM R B) (w w' : world R) (a : A) :
  c w = Some (Ok a w') -> lbind c k w = k a w'.
Proof. intros E. unfold lbind. rewrite E. reflexivity. Qed.

Lemma lbind_err {A B} (c : LM R A) (k : A -> LM R B) (w w' : world R) (e : pyexc) :
  c w = Some (Err e w') -> lbind c k w = Some (Err e w').
Proof. intros E. unfold lbind. rewrite E. reflexivity. Qed.

Lemma updateBenchmarkJson_arity (fuel : nat) (env : world R -> world R) (db : asvdb)
  (br : benchmarkResult R) (b : bench) (w : world R) :
  lookup_key (br_name br) (cat_entries (catalog w)) = Some b ->
  List.length (param_names b) <> List.length (br_argNameValuePairs br) ->
  updateBenchmarkJson fuel env db br w = Some (Err ArityMismatch w).
Proof.
  intros Hlk Hne. unfold updateBenchmarkJson. cbv zeta. rewrite Hlk.
  assert (E : Nat.eqb (List.length (param_names (set_b_unit (br_unit br) b)))
                      (List.length (map fst (br_argNameValuePairs br))) = false).
  { apply Nat.eqb_neq. rewrite length_map. exact Hne. }
  rewrite E. reflexivity.
Qed.

(** With the lock held and writes allowed, a measurement whose parameter
    count differs from the catalog entry's ends [addResult] with
    [ArityMismatch], in the store the lock and the write delay left. *)
Lemma addResult_arity (fuel : nat) (env : world R -> world R) (db : asvdb)
  (info : benchmarkInfo) (br : benchmarkResult R) (b : bench) (w w1 : world R) :
  getLock env fuel (dbDir db) (lockFileName db) w = Some (Ok tt w1) ->
  doWriteOperations db = true ->
  lookup_key (br_name br) (cat_entries (catalog w1)) = Some b ->
  List.length (param_names b) <> List.length (br_argNameValuePairs br) ->
  addResult fuel env db info br w = Some (Err ArityMismatch (sleep (writeDelay db) w1)).
Proof.
  intros Hl Hdo Hlk Hne. unfold addResult.
  rewrite (lbind_ok _ _ _ _ _ Hl).
  rewrite (lbind_ok _ _ w1 (sleep (writeDelay db) w1) true);
    [| unfold checkForWritePermission; rewrite Hdo; reflexivity].
  apply lbind_err. apply lbind_err.
  apply (updateBenchmarkJson_arity fuel env db br b); [exact Hlk | exact Hne].
Qed.

(** [ASVDb.__init__] stores the config document it computed from the one
    it read, when the other processes leave the config alone meanwhile. *)
Lemma ASVDb_init_conf (fuel : nat) (env : world R -> world R)
  (dbDir0 repo : string)
  (branches : option (list string)) (projectName commitUrl : option string)
  (writeDelay0 : Z) (lockName : string) (w w' : world R) (db : asvdb) :
  ASVDb_init fuel env dbDir0 repo branches projectName commitUrl writeDelay0 lockName w
    = Some (Ok db w') ->
  conf w' = init_conf (conf w) repo branches projectName commitUrl.
Proof.
  unfold ASVDb_init, writeJsonDictToFile, lbind, lift, lmodify, lret. cbv beta zeta.
  cbn [lockFileName].
  destruct (getLock env fuel dbDir0 lockName w) as [[u w1|e w1]|] eqn:G;
    [| discriminate | discriminate].
  unfold releaseLock, removeFile.
  destruct (mem _ _); intros H; [|discriminate].
  injection H as _ <-. cbn. reflexivity.
Qed.

End Frame.

(** ** Branch lists of the config document *)

Local Open Scope list_scope.

Lemma mem_iff_eq (x : string) (l l' : list string) :
  (In x l <-> In x l') -> mem x l = mem x l'.
Proof.
  intros H. destruct (mem x l) eqn:A, (mem x l') eqn:B; try reflexivity.
  - apply mem_In, H, mem_In in A. congruence.
  - apply mem_In, H, mem_In in B. congruence.
Qed.

Lemma init_conf_branches (d : confDoc) (repo : string) (branches : option (list string))
  (projectName commitUrl : option string) :
  c_branches (init_conf d repo branches projectName commitUrl) =
  Some ((match c_branches d with Some bs => bs | None => [] end) ++
        filter (fun b => negb (mem b (match c_branches d with Some bs => bs | None => [] end)))
          (match branches with Some bs => bs | None => [] end))%list.
Proof. reflexivity. Qed.

Lemma merge_branches_spec (s0 b1 b2 : list string) :
  NoDup s0 -> NoDup b1 -> NoDup b2 ->
  let s1 := s0 ++ filter (fun b => negb (mem b s0)) b1 in
  let L := s1 ++ filter (fun b => negb (mem b s1)) b2 in
  NoDup L /\ (forall x, In x L <-> In x s0 \/ In x b1 \/ In x b2) /\
  L = s0 ++ filter (fun b => negb (mem b s0)) b1 ++
      filter (fun b => negb (mem b s0 || mem b b1)) b2.
Proof.
  intros N0 N1 N2 s1 L.
  assert (Hs1 : forall x, In x s1 <-> In x s0 \/ In x b1).
  { intros x. unfold s1. rewrite in_app_iff, filter_In.
    destruct (in_dec string_dec x s0) as [I|I]; [tauto|].
    assert (M : mem x s0 = false) by (destruct (mem x s0) eqn:M; [apply mem_In in M; tauto | reflexivity]).
    rewrite M. simpl. tauto. }
  assert (HL : forall x, In x L <-> In x s0 \/ In x b1 \/ In x b2).
  { intros x. unfold L. rewrite in_app_iff, filter_In, Hs1.
    destruct (in_dec string_dec x s1) as [I|I].
    - apply Hs1 in I. tauto.
    - assert (M : mem x s1 = false) by (destruct (mem x s1) eqn:M; [apply mem_In in M; tauto | reflexivity]).
      rewrite M. rewrite Hs1 in I. simpl. tauto. }
  assert (ND : forall l l0, NoDup l0 -> NoDup l ->
             NoDup (l0 ++ filter (fun b => negb (mem b l0)) l)).
  { intros l l0 H0 H. apply NoDup_app; [exact H0 | apply NoDup_filter; exact H|].
    intros a Ha Hf. apply filter_In in Hf. destruct Hf as [_ Hf].
    apply mem_In in Ha. rewrite Ha in Hf. discriminate. }
  split; [|split; [exact HL|]].
  - unfold L. apply ND; [unfold s1; apply ND; assumption | exact N2].
  - unfold L, s1. rewrite <- app_assoc. f_equal. f_equal.
    apply filter_ext. intros b. f_equal.
    transitivity (mem b (s0 ++ b1)).
    + apply mem_iff_eq. rewrite !in_app_iff, filter_In.
      destruct (in_dec string_dec b s0) as [I|I]; [tauto|].
      assert (M : mem b s0 = false) by (destruct (mem b s0) eqn:M; [apply mem_In in M; tauto | reflexivity]).
      rewrite M. simpl. tauto.
    + unfold mem. apply existsb_app.
Qed.

Lemma merge_branches_eq (s0 b1 b2 : list string) :
  let s1 := s0 ++ filter (fun b => negb (mem b s0)) b1 in
  s1 ++ filter (fun b => negb (mem b s1)) b2 =
  s0 ++ filter (fun b => negb (mem b s0)) b1 ++
  filter (fun b => negb (mem b s0 || mem b b1)) b2.
Proof.
  intros s1. unfold s1. rewrite <- app_assoc. f_equal. f_equal.
  apply filter_ext. intros b. f_equal.
  transitivity (mem b (s0 ++ b1)).
  - apply mem_iff_eq. rewrite !in_app_iff, filter_In.
    destruct (in_dec string_dec b s0) as [I|I]; [tauto|].
    assert (M : mem b s0 = false) by (destruct (mem b s0) eqn:M; [apply mem_In in M; tauto | reflexivity]).
    rewrite M. simpl. tauto.
  - unfold mem. apply existsb_app.
Qed.

Lemma count_occ_filter_str (p : string -> bool) (l : list string) (x : string) :
  count_occ string_dec (filter p l) x = if p x then count_occ string_dec l x else 0%nat.
Proof.
  induction l as [|y l IH]; simpl; [destruct (p x); reflexivity|].
  destruct (p y) eqn:Py; simpl; rewrite IH;
    destruct (string_dec y x) as [->|Hne]; try rewrite Py; try reflexivity.
Qed.

Lemma count_occ_mem_false (l : list string) (x : string) :
  mem x l = false -> count_occ string_dec l x = 0%nat.
Proof.
  intros M. apply count_occ_not_In. intros H. apply mem_In in H. congruence.
Qed.

(** * The claims *)

Section Claims.
Context {R : Type}.

(** Claim C3.  Whenever the re-scan right after creating our marker finds
    another holder's marker (and ours is still there), [__getLock] removes
    our marker and then evaluates [random.random()] for the backoff; as
    [random] is not imported, this raises [NameError] out of the lock loop
    to the caller instead of sleeping and retrying. *)
Theorem race_backoff_raises (env : world R -> world R) (dirPath name : string)
  (w w1 : world R) (k : string) (v : Z) (T : list (string * Z)) (fuel : nat) :
  updateOtherLockfileTimes dirPath name [] (env (createLockfile dirPath name w))
    = Ok ((k, v) :: T) w1 ->
  In (path_join dirPath name) (files w1) ->
  exists w2, lock_run env dirPath name (S fuel) (mkL LWait [] w)
               = Some (Err (NameError "random") w2) /\
    ~ In (path_join dirPath name) (files w2).
Proof.
  intros E Hin.
  exists (set_files w1 (remove string_dec (path_join dirPath name) (files w1))). split.
  - rewrite lock_run_S. unfold lock_step. cbv beta zeta. cbn [l_phase l_times l_world].
    rewrite E. unfold releaseLock, removeFile. apply mem_In in Hin. rewrite Hin.
    reflexivity.
  - apply remove_In.
Qed.

(** Claim C4.  When the catalog entry for the benchmark exists with a
    parameter-name count different from the number of parameters supplied,
    [addResult] (the lock taken, writes allowed, the other processes not
    writing the catalog meanwhile) ends with [ArityMismatch], and the
    catalog is the one it started with. *)
Theorem record_arity_mismatch_keeps_catalog (fuel : nat) (env : world R -> world R)
  (Henv : forall w, catalog (env w) = catalog w) (db : asvdb) (info : benchmarkInfo)
  (br : benchmarkResult R) (b : bench) (w w1 : world R) :
  getLock env fuel (dbDir db) (lockFileName db) w = Some (Ok tt w1) ->
  doWriteOperations db = true ->
  lookup_key (br_name br) (cat_entries (catalog w)) = Some b ->
  List.length (param_names b) <> List.length (br_argNameValuePairs br) ->
  exists w2, addResult fuel env db info br w = Some (Err ArityMismatch w2) /\
    catalog w2 = catalog w.
Proof.
  intros Hl Hdo Hlk Hne.
  pose proof (getLock_catalog env Henv fuel _ _ w _ Hl) as C. cbn [res_world] in C.
  exists (sleep (writeDelay db) w1). split.
  - apply (addResult_arity fuel env db info br b w w1 Hl Hdo); [rewrite C; exact Hlk | exact Hne].
  - exact C.
Qed.

(** Claim C7.  (1) In the inner wait loop, while markers of others are
    recorded, a step sleeps [poll_interval] (200 ms), rescans, stays in the
    loop and creates no file of its own.  (2) A scan deletes exactly the
    other markers first seen more than [lockFileTimeout] (5 s) earlier.
    (3) When no new markers appear, [__getLock] acquires the lock within 29
    scans, whatever markers were there at the start. *)
Theorem acquire_waits_then_reclaims_stale :
  (forall (env : world R -> world R) (dirPath name : string) (T : list (string * Z))
     (w : world R),
   T <> [] ->
   match lock_step env dirPath name (mkL LWait T w) with
   | LNext s' => l_phase s' = LWait /\
       forall g, In g (files (l_world s')) -> In g (files (env (sleep poll_interval w)))
   | LDone _ => False
   | LFail _ _ => True
   end) /\
  (forall (dirPath name : string) (T : list (string * Z)) (w : world R),
   NoDup (files w) ->
   exists T' w', updateOtherLockfileTimes dirPath name T w = Ok T' w' /\
     forall f, In f (others dirPath name (files w)) ->
       (In f (files w') <->
          ~ (exists t0, lookup_time f T = Some t0 /\ clock w - t0 > lockFileTimeout))) /\
  (forall (dirPath name : string) (w : world R),
   NoDup (files w) ->
   exists w', getLock passive 29 dirPath name w = Some (Ok tt w') /\
     In (path_join dirPath name) (files w') /\ others dirPath name (files w') = []).
Proof.
  split; [|split].
  - intros env dirPath name T w Hne. destruct T as [|x xs]; [contradiction|].
    rewrite lock_step_wait_cons.
    destruct (updateOtherLockfileTimes dirPath name (x :: xs) (env (sleep poll_interval w)))
      as [t w'|e w'] eqn:E; [|exact I].
    split; [reflexivity|]. exact (scan_subset _ _ _ _ _ _ E).
  - intros dirPath name T w Hnd.
    destruct (scan_deletes_stale dirPath name T w Hnd) as (T' & w' & E & H).
    exists T', w'. split; [exact E|]. intros f Hf. exact (proj1 (H f Hf)).
  - intros dirPath name w Hnd. apply getLock_acquires; [intros; reflexivity | exact Hnd].
Qed.

(** Claim C10.  After an [ArityMismatch] inside [addResult] (the lock taken,
    no other process deleting our marker), the error leaves [addResult]
    without [__releaseLock]: our marker is still on disk.  And a scan of
    another acquirer deletes a marker only when it first saw it more than
    [lockFileTimeout] earlier. *)
Theorem arity_error_leaves_marker (fuel : nat) (env : world R -> world R) (db : asvdb)
  (Hkeep : forall w, In (path_join (dbDir db) (lockFileName db)) (files w) ->
                     In (path_join (dbDir db) (lockFileName db)) (files (env w)))
  (info : benchmarkInfo) (br : benchmarkResult R) (b : bench) (w w1 : world R) :
  getLock env fuel (dbDir db) (lockFileName db) w = Some (Ok tt w1) ->
  doWriteOperations db = true ->
  lookup_key (br_name br) (cat_entries (catalog w1)) = Some b ->
  List.length (param_names b) <> List.length (br_argNameValuePairs br) ->
  (exists w2, addResult fuel env db info br w = Some (Err ArityMismatch w2) /\
     In (path_join (dbDir db) (lockFileName db)) (files w2)) /\
  (forall (dirPath name : string) (T T' : list (string * Z)) (v v' : world R) (f : string),
     NoDup (files v) ->
     updateOtherLockfileTimes dirPath name T v = Ok T' v' ->
     In f (others dirPath name (files v)) -> ~ In f (files v') ->
     exists t0, lookup_time f T = Some t0 /\ clock v - t0 > lockFileTimeout).
Proof.
  intros Hl Hdo Hlk Hne. split.
  - exists (sleep (writeDelay db) w1). split.
    + exact (addResult_arity fuel env db info br b w w1 Hl Hdo Hlk Hne).
    + exact (getLock_marker env _ _ Hkeep fuel w w1 Hl).
  - intros dirPath name T T' v v' f Hnd E Hf Hout.
    exact (scan_removes_only_stale dirPath name T T' v v' f Hnd E Hf Hout).
Qed.

(** Claim C9 (as corrected).  Two runs of [ASVDb.__init__] on one store with
    branch lists [b1] then [b2] leave as branches the stored list, then the
    branches of [b1] not stored, then the branches of [b2] in neither.  Every
    copy of a branch comes from the first of the three lists that holds it,
    so duplicates inside one list are kept.  When the stored list and each
    supplied list have no duplicates, the result has no duplicates and holds
    exactly the branches of all three. *)
Theorem init_twice_branch_union (fuel : nat) (env : world R -> world R)
  (dbDir0 repo : string) (b1 b2 : list string) (projectName commitUrl : option string)
  (writeDelay0 : Z) (lock1 lock2 : string) (w w1 w2 : world R) (db1 db2 : asvdb) :
  ASVDb_init fuel env dbDir0 repo (Some b1) projectName commitUrl writeDelay0 lock1 w
    = Some (Ok db1 w1) ->
  ASVDb_init fuel env dbDir0 repo (Some b2) projectName commitUrl writeDelay0 lock2 w1
    = Some (Ok db2 w2) ->
  let s0 := match c_branches (conf w) with Some b => b | None => [] end in
  let L := s0 ++ filter (fun b => negb (mem b s0)) b1 ++
           filter (fun b => negb (mem b s0 || mem b b1)) b2 in
  c_branches (conf w2) = Some L /\
  (forall x, count_occ string_dec L x =
     if mem x s0 then count_occ string_dec s0 x
     else if mem x b1 then count_occ string_dec b1 x
     else count_occ string_dec b2 x) /\
  (NoDup s0 -> NoDup b1 -> NoDup b2 ->
   NoDup L /\ (forall x, In x L <-> In x s0 \/ In x b1 \/ In x b2)).
Proof.
  intros H1 H2 s0 L.
  apply ASVDb_init_conf in H1. apply ASVDb_init_conf in H2.
  split; [|split].
  - rewrite H2, init_conf_branches, H1, init_conf_branches.
    fold s0. rewrite merge_branches_eq. reflexivity.
  - intros x. unfold L. rewrite !count_occ_app, !count_occ_filter_str.
    destruct (mem x s0) eqn:M0; cbn [negb orb].
    + lia.
    + rewrite (count_occ_mem_false s0 x M0).
      destruct (mem x b1) eqn:M1; cbn [negb]; [lia|].
      rewrite (count_occ_mem_false b1 x M1). lia.
  - intros N0 N1 N2.
    destruct (merge_branches_spec s0 b1 b2 N0 N1 N2) as (ND & HI & HE).
    cbv zeta in ND, HI, HE. rewrite HE in ND, HI. split; [exact ND | exact HI].
Qed.

End Claims.

(** Claim C8 (as corrected).  [__sanitizeArgNameValues] maps [None] to the
    empty list; it keeps every parameter name as given, and stores each
    value as the string [str(v)], with "NaN" for a [None] value. *)
Theorem sanitize_renders_values (l : list (pyval * pyval)) :
  sanitizeArgNameValues None = [] /\
  map fst (sanitizeArgNameValues (Some l)) = map fst l /\
  map snd (sanitizeArgNameValues (Some l)) =
    map (fun nv => PStr (match snd nv with PNone => "NaN" | v => py_str v end)) l /\
  Forall (fun nv => is_str (snd nv) = true) (sanitizeArgNameValues (Some l)).
Proof.
  split; [reflexivity|].
  induction l as [|[n v] l IH]; [split; [reflexivity | split; [reflexivity | constructor]]|].
  destruct IH as (H1 & H2 & H3). cbn [sanitizeArgNameValues map fst snd] in *.
  rewrite H1, H2. split; [reflexivity|]. split.
  - destruct v; reflexivity.
  - constructor; [destruct v; reflexivity | exact H3].
Qed.

(** ** Witnesses and counterexamples *)

Lemma record_same_tuple_overwrites_witness :
  exists g', mergeMany ["a"; "b"] ([Some 1%nat] ++ [Some 2%nat])%list
               (mkGrid [["a"]; ["c"]] [Some 7%nat]) = inl g' /\
    List.length (g_result g') = prod_len (g_params g') /\
    grid_value g' ["a"; "b"] = Some 2%nat.
Proof.
  apply (record_same_tuple_overwrites ["a"; "b"] [Some 1%nat] (Some 2%nat)
           (mkGrid [["a"]; ["c"]] [Some 7%nat])).
  right. reflexivity.
Defined.

Lemma race_backoff_raises_witness :
  exists w2, lock_run (racer "/db" ".asvdbLOCK-1-1" "/db/.asvdbLOCK-2-1") "/db" ".asvdbLOCK-1-1"
               2 (mkL LWait [] (@example_world Z [] empty_catalog))
             = Some (Err (NameError "random") w2) /\
    ~ In "/db/.asvdbLOCK-1-1" (files w2).
Proof.
  apply (race_backoff_raises (racer "/db" ".asvdbLOCK-1-1" "/db/.asvdbLOCK-2-1")
           "/db" ".asvdbLOCK-1-1" (@example_world Z [] empty_catalog)
           (example_world ["/db/.asvdbLOCK-1-1"; "/db/.asvdbLOCK-2-1"] empty_catalog)
           "/db/.asvdbLOCK-2-1" 0 [] 1).
  - vm_compute. reflexivity.
  - simpl. left. reflexivity.
Defined.

(** The catalog, database and measurement of the arity witnesses: "bench1"
    is recorded with one parameter, the measurement has two. *)
Lemma record_arity_mismatch_keeps_catalog_witness :
  exists w2,
    addResult 3 passive (mkASVDb "/db" "/db/results" ".asvdbLOCK-1-1" 0 true)
      (mkBenchmarkInfo "m" "11" "linux" "3.8" "abc" 0 "gpu" "cpu" "x86_64" "1")
      (BenchmarkResult "bench1" (Some 1%nat) (Some [(PStr "a", PInt 1); (PStr "b", PInt 2)]))
      (example_world []
         (mkCatalog [("bench1", getDefaultBenchmarkDescrDict "bench1" [PStr "a"])] (Some 2)))
    = Some (Err ArityMismatch w2) /\
    catalog w2 = mkCatalog [("bench1", getDefaultBenchmarkDescrDict "bench1" [PStr "a"])] (Some 2).
Proof.
  apply (record_arity_mismatch_keeps_catalog 3 passive (fun _ => eq_refl)
           (mkASVDb "/db" "/db/results" ".asvdbLOCK-1-1" 0 true)
           (mkBenchmarkInfo "m" "11" "linux" "3.8" "abc" 0 "gpu" "cpu" "x86_64" "1")
           (BenchmarkResult "bench1" (Some 1%nat) (Some [(PStr "a", PInt 1); (PStr "b", PInt 2)]))
           (getDefaultBenchmarkDescrDict "bench1" [PStr "a"])
           (example_world []
              (mkCatalog [("bench1", getDefaultBenchmarkDescrDict "bench1" [PStr "a"])] (Some 2)))
           (example_world ["/db/.asvdbLOCK-1-1"]
              (mkCatalog [("bench1", getDefaultBenchmarkDescrDict "bench1" [PStr "a"])] (Some 2)))).
  - vm_compute. reflexivity.
  - reflexivity.
  - reflexivity.
  - simpl. lia.
Defined.

Lemma acquire_waits_then_reclaims_stale_witness :
  exists w', getLock passive 29 "/db" ".asvdbLOCK-1-1"
               (@example_world Z ["/db/.asvdbLOCK-2-1"; "/db/benchmarks.json"] empty_catalog)
             = Some (Ok tt w') /\
    In "/db/.asvdbLOCK-1-1" (files w') /\ others "/db" ".asvdbLOCK-1-1" (files w') = [].
Proof.
  apply (proj2 (proj2 (@acquire_waits_then_reclaims_stale Z))).
  simpl. repeat constructor; simpl; intuition discriminate.
Defined.

Lemma arity_error_leaves_marker_witness :
  exists w2,
    addResult 3 passive (mkASVDb "/db" "/db/results" ".asvdbLOCK-1-1" 0 true)
      (mkBenchmarkInfo "m" "11" "linux" "3.8" "abc" 0 "gpu" "cpu" "x86_64" "1")
      (BenchmarkResult "bench1" (Some 1%nat) (Some [(PStr "a", PInt 1); (PStr "b", PInt 2)]))
      (example_world []
         (mkCatalog [("bench1", getDefaultBenchmarkDescrDict "bench1" [PStr "a"])] (Some 2)))
    = Some (Err ArityMismatch w2) /\
    In "/db/.asvdbLOCK-1-1" (files w2).
Proof.
  destruct (arity_error_leaves_marker 3 passive (mkASVDb "/db" "/db/results" ".asvdbLOCK-1-1" 0 true)
           (fun _ H => H)
           (mkBenchmarkInfo "m" "11" "linux" "3.8" "abc" 0 "gpu" "cpu" "x86_64" "1")
           (BenchmarkResult "bench1" (Some 1%nat) (Some [(PStr "a", PInt 1); (PStr "b", PInt 2)]))
           (getDefaultBenchmarkDescrDict "bench1" [PStr "a"])
           (example_world []
              (mkCatalog [("bench1", getDefaultBenchmarkDescrDict "bench1" [PStr "a"])] (Some 2)))
           (example_world ["/db/.asvdbLOCK-1-1"]
              (mkCatalog [("bench1", getDefaultBenchmarkDescrDict "bench1" [PStr "a"])] (Some 2))))
    as [H _].
  - vm_compute. reflexivity.
  - reflexivity.
  - reflexivity.
  - simpl. lia.
  - exact H.
Defined.

Lemma init_twice_branch_union_witness :
  let w0 := @example_world Z [] empty_catalog in
  let r1 := ASVDb_init 3 passive "/db" "repo" (Some ["main"]) None None 0 ".asvdbLOCK-1-1" w0 in
  let w1 := match r1 with Some (Ok _ w') => w' | _ => w0 end in
  let db1 := match r1 with Some (Ok d _) => d | _ => mkASVDb "" "" "" 0 false end in
  let r2 := ASVDb_init 3 passive "/db" "repo" (Some ["dev"; "main"]) None None 0 ".asvdbLOCK-1-2" w1 in
  let w2 := match r2 with Some (Ok _ w') => w' | _ => w0 end in
  let db2 := match r2 with Some (Ok d _) => d | _ => mkASVDb "" "" "" 0 false end in
  let L := [] ++ filter (fun b => negb (mem b [])) ["main"] ++
           filter (fun b => negb (mem b [] || mem b ["main"])) ["dev"; "main"] in
  c_branches (conf w2) = Some L /\
  (forall x, count_occ string_dec L x =
     if mem x [] then count_occ string_dec [] x
     else if mem x ["main"] then count_occ string_dec ["main"] x
     else count_occ string_dec ["dev"; "main"] x) /\
  NoDup L /\ (forall x, In x L <-> In x [] \/ In x ["main"] \/ In x ["dev"; "main"]).
Proof.
  intros w0 r1 w1 db1 r2 w2 db2 L.
  destruct (init_twice_branch_union 3 passive "/db" "repo" ["main"] ["dev"; "main"] None None 0
              ".asvdbLOCK-1-1" ".asvdbLOCK-1-2" w0 w1 w2 db1 db2) as (A & B & C).
  - vm_compute. reflexivity.
  - vm_compute. reflexivity.
  - split; [exact A|]. split; [exact B|]. apply C.
    + constructor.
    + repeat constructor. simpl. tauto.
    + repeat constructor; simpl; intuition discriminate.
Defined.

(** C8: a parameter name is stored as given, so an int name stays an int. *)
Lemma sanitize_keeps_int_name :
  sanitizeArgNameValues (Some [(PInt 1, PInt 2)]) = [(PInt 1, PStr "2")] /\
  is_str (PInt 1) = false.
Proof. split; reflexivity. Qed.

(** C9: duplicates inside one supplied list are kept: a fresh store and the
    runs with [a,a] then [b] leave [a,a,b]. *)
Lemma init_twice_keeps_duplicates :
  let w0 := @example_world Z [] empty_catalog in
  match ASVDb_init 3 passive "/db" "repo" (Some ["a"; "a"]) None None 0 ".asvdbLOCK-1-1" w0 with
  | Some (Ok _ w1) =>
      match ASVDb_init 3 passive "/db" "repo" (Some ["b"]) None None 0 ".asvdbLOCK-1-2" w1 with
      | Some (Ok _ w2) => c_branches (conf w2) = Some ["a"; "a"; "b"] /\ ~ NoDup ["a"; "a"; "b"]
      | _ => False
      end
  | _ => False
  end.
Proof.
  vm_compute. split; [reflexivity|].
  intros H. inversion H as [|x l Hx _]. apply Hx. left. reflexivity.
Qed.

(** * Further properties of the code *)

(** ** The result grid *)

Lemma product_length_in (cols : list (list string)) (p : list string) :
  In p (product cols) -> List.length p = List.length cols.
Proof.
  revert p. induction cols as [|c cs IH]; simpl; intros p H.
  - destruct H as [<-|[]]. reflexivity.
  - apply in_flat_map in H. destruct H as (x & _ & H).
    apply in_map_iff in H. destruct H as (q & <- & Hq). simpl. f_equal. exact (IH q Hq).
Qed.

Lemma product_in_inv (cols : list (list string)) (p : list string) :
  In p (product cols) -> Forall2 (@In string) p cols.
Proof.
  revert p. induction cols as [|c cs IH]; simpl; intros p H.
  - destruct H as [<-|[]]. constructor.
  - apply in_flat_map in H. destruct H as (x & Hx & H).
    apply in_map_iff in H. destruct H as (q & <- & Hq). constructor; [exact Hx | exact (IH q Hq)].
Qed.

Lemma NoDup_map_cons (x : string) (l : list (list string)) :
  NoDup l -> NoDup (map (cons x) l).
Proof.
  induction 1 as [|q l Hq _ IH]; simpl; constructor; [|exact IH].
  intros H. apply in_map_iff in H. destruct H as (q' & E & H'). injection E as ->. contradiction.
Qed.

Lemma NoDup_product (cols : list (list string)) :
  Forall (@NoDup string) cols -> NoDup (product cols).
Proof.
  induction 1 as [|c cs Hc _ IH]; simpl; [repeat constructor; intros []|].
  induction Hc as [|x c Hx Hc IHc]; simpl; [constructor|].
  apply NoDup_app.
  - apply NoDup_map_cons. exact IH.
  - exact IHc.
  - intros a Ha Hb. apply in_map_iff in Ha. destruct Ha as (q & <- & _).
    apply in_flat_map in Hb. destruct Hb as (y & Hy & Hb).
    apply in_map_iff in Hb. destruct Hb as (q' & E & _). injection E as -> _.
    contradiction.
Qed.

Lemma index_of_nth (t : list string) (l : list (list string)) (i : nat) :
  index_of t l = Some i -> nth_error l i = Some t.
Proof.
  revert i. induction l as [|p ps IH]; simpl; intros i H; [discriminate|].
  destruct (tuple_eqb t p) eqn:E.
  - injection H as <-. apply tuple_eqb_true in E. subst. reflexivity.
  - destruct (index_of t ps) as [j|]; [|discriminate]. injection H as <-. exact (IH j eq_refl).
Qed.

Lemma tuple_eqb_false (a b : list string) : a <> b -> tuple_eqb a b = false.
Proof. unfold tuple_eqb. destruct (list_eq_dec string_dec a b); congruence. Qed.

Lemma update_cols_known (cols : list (list string)) (t : list string) :
  Forall2 (@In string) t cols -> update_cols cols t = Some cols.
Proof.
  induction 1 as [|v c vs cs Hv _ IH]; simpl; [reflexivity|].
  rewrite IH. apply mem_In in Hv. rewrite Hv. reflexivity.
Qed.

Lemma update_cols_long (cols : list (list string)) (t : list string) :
  (List.length cols <= List.length t)%nat ->
  exists cols', update_cols cols t = Some cols' /\ List.length cols' = List.length cols.
Proof.
  revert t. induction cols as [|c cs IH]; intros [|v vs] Hl; simpl in *.
  - exists []. split; reflexivity.
  - exists []. split; reflexivity.
  - lia.
  - destruct (IH vs) as (cs' & E & L); [lia|]. rewrite E.
    eexists. split; [reflexivity|]. simpl. lia.
Qed.

Lemma update_cols_short (cols : list (list string)) (t : list string) :
  (List.length t < List.length cols)%nat -> update_cols cols t = None.
Proof.
  revert t. induction cols as [|c cs IH]; intros [|v vs] Hl; simpl in *; try lia.
  - reflexivity.
  - rewrite IH by lia. reflexivity.
Qed.

Lemma update_cols_grow (cols cols' : list (list string)) (t : list string) :
  update_cols cols t = Some cols' ->
  Forall (@NoDup string) cols ->
  Forall (@NoDup string) cols' /\
  Forall2 (fun c c' => exists s, c' = c ++ s) cols cols'.
Proof.
  revert t cols'. induction cols as [|c cs IH]; intros [|v vs] cols' E Hnd; simpl in E.
  - injection E as <-. split; constructor.
  - injection E as <-. split; constructor.
  - discriminate.
  - inversion Hnd as [|? ? Hc Hcs]; subst.
    destruct (update_cols cs vs) as [cs'|] eqn:E'; [|discriminate].
    injection E as <-. destruct (IH vs cs' E' Hcs) as [N F].
    destruct (mem v c) eqn:M.
    + split; constructor; [exact Hc | exact N | exists []; rewrite app_nil_r; reflexivity | exact F].
    + split; constructor; [| exact N | exists [v]; reflexivity | exact F].
      apply NoDup_app; [exact Hc | repeat constructor; intros [] |].
      intros a Ha [<-|[]]. apply mem_In in Ha. congruence.
Qed.

Section GridMore.
Context {R : Type}.

Lemma dict_of_zip_rev (keys : list (list string)) (vals : list (@value R)) :
  dict_of_zip keys vals = rev (combine keys vals).
Proof.
  unfold dict_of_zip.
  assert (G : forall (l acc : @tdict R),
             fold_left (fun m kv => @dict_set R m (fst kv) (snd kv)) l acc = rev l ++ acc).
  { induction l as [|[k v] l IH]; intros acc; simpl; [reflexivity|].
    rewrite IH, <- app_assoc. reflexivity. }
  rewrite G, app_nil_r. reflexivity.
Qed.

Lemma dict_lookup_app (a b : @tdict R) (p : list string) :
  dict_lookup (a ++ b) p =
  match dict_lookup a p with Some v => Some v | None => dict_lookup b p end.
Proof.
  induction a as [|[k v] a IH]; simpl; [reflexivity|].
  destruct (tuple_eqb p k); [reflexivity | exact IH].
Qed.

Lemma dict_lookup_none (m : @tdict R) (p : list string) :
  ~ In p (map fst m) -> dict_lookup m p = None.
Proof.
  induction m as [|[k v] m IH]; simpl; intros H; [reflexivity|].
  rewrite tuple_eqb_false by (intros ->; apply H; left; reflexivity).
  apply IH. intros H'. apply H. right. exact H'.
Qed.

Lemma dict_lookup_rev (m : @tdict R) (p : list string) :
  NoDup (map fst m) -> dict_lookup (rev m) p = dict_lookup m p.
Proof.
  induction m as [|[k v] m IH]; simpl; intros Hnd; [reflexivity|].
  inversion Hnd as [|? ? Hk Hm]; subst.
  rewrite dict_lookup_app, IH by exact Hm. simpl.
  destruct (tuple_eqb p k) eqn:E.
  - apply tuple_eqb_true in E. subst. rewrite dict_lookup_none by exact Hk. reflexivity.
  - destruct (dict_lookup m p); reflexivity.
Qed.

Lemma map_fst_combine (keys : list (list string)) (vals : list (@value R)) :
  List.length keys = List.length vals -> map fst (combine keys vals) = keys.
Proof.
  revert vals. induction keys as [|k ks IH]; intros [|v vs] H; simpl in *; try discriminate;
    [reflexivity|]. f_equal. apply IH. lia.
Qed.

Lemma dict_lookup_combine (keys : list (list string)) (vals : list (@value R))
  (p : list string) :
  List.length keys = List.length vals ->
  dict_lookup (combine keys vals) p =
  match index_of p keys with Some i => nth_error vals i | None => None end.
Proof.
  revert vals. induction keys as [|k ks IH]; intros [|v vs] H; simpl in *; try discriminate;
    [reflexivity|].
  destruct (tuple_eqb p k); [reflexivity|].
  rewrite IH by lia. destruct (index_of p ks); reflexivity.
Qed.

(** [__updateResultJson] on a tuple whose every value is already in its
    column: the columns stay as they are, the tuple's entry becomes the new
    result and the entry of every other tuple is kept. *)
Theorem merge_known_tuple_in_place (t : list string) (r : value) (g : grid R) :
  g_params g <> [] ->
  Forall (@NoDup string) (g_params g) ->
  List.length (g_result g) = prod_len (g_params g) ->
  In t (product (g_params g)) ->
  exists g', mergeResult t r g = inl g' /\ g_params g' = g_params g /\
    grid_value g' t = r /\ forall p, p <> t -> grid_value g' p = grid_value g p.
Proof.
  intros Hne Hnd Hlen Ht. destruct g as [cols res]. cbn [g_params g_result] in *.
  unfold mergeResult. cbn [g_params g_result].
  destruct cols as [|c cs]; [contradiction|].
  rewrite (update_cols_known _ _ (product_in_inv _ _ Ht)).
  eexists. split; [reflexivity|]. split; [reflexivity|].
  set (P := product (c :: cs)).
  assert (HP : NoDup P) by (apply NoDup_product; exact Hnd).
  assert (HL : List.length P = List.length res) by (unfold P; rewrite length_product; lia).
  split.
  - unfold grid_value. cbn [g_params g_result]. fold P.
    destruct (index_of_in t P Ht) as (i & Hi & Hn).
    rewrite Hi, nth_error_map, Hn. simpl. apply dict_get_set_same.
  - intros p Hp. unfold grid_value. cbn [g_params g_result]. fold P.
    destruct (index_of p P) as [i|] eqn:Hi; [|reflexivity].
    rewrite nth_error_map, (index_of_nth _ _ _ Hi). simpl.
    unfold dict_get, dict_set. simpl. rewrite tuple_eqb_false by exact Hp.
    rewrite dict_of_zip_rev, dict_lookup_rev by (rewrite map_fst_combine by exact HL; exact HP).
    rewrite dict_lookup_combine by exact HL. rewrite Hi.
    destruct (nth_error res i); reflexivity.
Qed.

(** A tuple with more values than the grid has columns is merged without
    error, but its result is stored nowhere: the outcome does not depend on
    the result written, and the tuple has no entry afterwards. *)
Theorem merge_extra_values_dropped (t : list string) (r r' : value) (g : grid R) :
  g_params g <> [] -> (List.length (g_params g) < List.length t)%nat ->
  exists g', mergeResult t r g = inl g' /\ mergeResult t r' g = inl g' /\
    grid_value g' t = None.
Proof.
  intros Hne Hl. destruct g as [cols res]. cbn [g_params g_result] in *.
  unfold mergeResult. cbn [g_params g_result].
  destruct cols as [|c cs]; [contradiction|].
  destruct (update_cols_long (c :: cs) t) as (cols' & E & L); [lia|]. rewrite E.
  assert (Hno : forall p, In p (product cols') -> p <> t).
  { intros p Hp ->. apply product_length_in in Hp. lia. }
  assert (Hm : forall v : value, map (dict_get (dict_set (dict_of_zip (product cols') res) t v))
                                   (product cols')
                               = map (dict_get (dict_of_zip (product cols') res)) (product cols')).
  { intros v. apply map_ext_in. intros p Hp. unfold dict_get, dict_set. simpl.
    rewrite tuple_eqb_false by exact (Hno p Hp). reflexivity. }
  eexists. split; [reflexivity|]. split.
  - cbv zeta. rewrite !Hm. reflexivity.
  - unfold grid_value. cbn [g_params g_result].
    destruct (index_of t (product cols')) as [i|] eqn:Hi; [|reflexivity].
    exfalso. apply (Hno t); [|reflexivity].
    exact (nth_error_In _ _ (index_of_nth _ _ _ Hi)).
Qed.

(** Merges keep every column free of duplicates, and a column only grows at
    its end. *)
Theorem merge_columns_grow (t : list string) (r : value) (g g' : grid R) :
  mergeResult t r g = inl g' ->
  Forall (@NoDup string) (g_params g) ->
  Forall (@NoDup string) (g_params g') /\
  (g_params g <> [] -> Forall2 (fun c c' => exists s, c' = c ++ s) (g_params g) (g_params g')).
Proof.
  unfold mergeResult. intros E Hnd. destruct (g_params g) as [|c cs] eqn:Hp.
  - injection E as <-. cbn [g_params]. split; [|intros []; reflexivity].
    apply Forall_map, Forall_forall. intros v _. repeat constructor. intros [].
  - destruct (update_cols (c :: cs) t) as [cols'|] eqn:U; [|discriminate].
    injection E as <-. cbn [g_params].
    destruct (update_cols_grow _ _ _ U Hnd) as [N F]. split; [exact N | intros _; exact F].
Qed.

End GridMore.

(** ** Writes to the store *)

Lemma lookup_key_set_key_same {A} (k : string) (v : A) (m : list (string * A)) :
  lookup_key k (set_key k v m) = Some v.
Proof.
  induction m as [|[k' v'] m IH]; simpl.
  - rewrite String.eqb_refl. reflexivity.
  - destruct (String.eqb k k') eqn:E; simpl.
    + rewrite String.eqb_refl. reflexivity.
    + rewrite E. exact IH.
Qed.

Lemma lookup_key_set_key_other {A} (k k' : string) (v : A) (m : list (string * A)) :
  k' <> k -> lookup_key k' (set_key k v m) = lookup_key k' m.
Proof.
  intros Hne. induction m as [|[k0 v0] m IH]; simpl.
  - apply String.eqb_neq in Hne. rewrite Hne. reflexivity.
  - destruct (String.eqb k k0) eqn:E; simpl.
    + apply String.eqb_eq in E. subst k0.
      apply String.eqb_neq in Hne. rewrite Hne. reflexivity.
    + destruct (String.eqb k' k0); [reflexivity | exact IH].
Qed.

Lemma extend_params_spec (ps : list (list string)) (vals : list string) :
  List.length ps = List.length vals ->
  exists ps', extend_params ps vals = Some ps' /\ Forall2 (@In string) vals ps'.
Proof.
  revert ps. induction vals as [|v vs IH]; intros [|p ps] Hl; simpl in *; try discriminate.
  - exists []. split; [reflexivity | constructor].
  - destruct (IH ps) as (ps' & E & F); [lia|]. rewrite E. simpl.
    eexists. split; [reflexivity|]. constructor; [|exact F].
    destruct (mem v p) eqn:M; [apply mem_In; exact M | apply in_or_app; right; left; reflexivity].
Qed.

Lemma existsb_tuple_In (t : list string) (l : list (list string)) :
  existsb (tuple_eqb t) l = true -> In t l.
Proof.
  rewrite existsb_exists. intros (p & Hp & E). apply tuple_eqb_true in E. subst. exact Hp.
Qed.

Section Writes.
Context {R : Type}.

Lemma lbind_ok_inv {A B} (c : LM R A) (k : A -> LM R B) (w w' : world R) (b : B) :
  lbind c k w = Some (Ok b w') -> exists a w1, c w = Some (Ok a w1) /\ k a w1 = Some (Ok b w').
Proof.
  unfold lbind. destruct (c w) as [[a w1|e w1]|]; intros H; try discriminate. eauto.
Qed.

(** A completed [__writeJsonDictToFile] is the document written into the
    store as the lock left it, and then our marker removed. *)
Lemma writeJsonDictToFile_ok (fuel : nat) (env : world R -> world R) (db : asvdb)
  (dirPath : string) (put : world R -> world R) (w w' : world R) (u : unit) :
  writeJsonDictToFile fuel env db dirPath put w = Some (Ok u w') ->
  exists w1, getLock env fuel dirPath (lockFileName db) w = Some (Ok tt w1) /\
    w' = set_files (put w1)
           (remove string_dec (path_join dirPath (lockFileName db)) (files (put w1))).
Proof.
  unfold writeJsonDictToFile, lbind, lift, lmodify. cbv beta.
  destruct (getLock env fuel dirPath (lockFileName db) w) as [[[] w1|e w1]|];
    intros H; try discriminate.
  unfold releaseLock, removeFile in H. destruct (mem _ _); [|discriminate].
  injection H as _ <-. exists w1. split; reflexivity.
Qed.

Lemma cancelled_addResult_proj (X : Type) (proj : world R -> X)
  (Hfiles : forall w fs, proj (set_files w fs) = proj w)
  (Hclock : forall w t, proj (set_clock w t) = proj w)
  (fuel : nat) (env : world R -> world R) (Henv : forall w, proj (env w) = proj w)
  (db : asvdb) (info : benchmarkInfo) (br : benchmarkResult R) (w : world R)
  (r : res R unit) :
  doWriteOperations db = false ->
  addResult fuel env db info br w = Some r -> proj (res_world r) = proj w.
Proof.
  intros Hdo. unfold addResult, lbind. cbv beta.
  destruct (getLock env fuel (dbDir db) (lockFileName db) w) as [[u w1|e w1]|] eqn:G;
    intros H; try discriminate.
  - unfold checkForWritePermission in H. rewrite Hdo in H. cbv beta iota in H.
    unfold lret, lift in H. injection H as <-.
    rewrite (releaseLock_proj X proj Hfiles).
    exact (getLock_proj X proj Hfiles Hclock env Henv fuel _ _ w _ G).
  - injection H as <-. exact (getLock_proj X proj Hfiles Hclock env Henv fuel _ _ w _ G).
Qed.

(** With [doWriteOperations] off, [addResult] changes none of the JSON
    documents (catalog, machine files, results files), whether it returns
    or raises, when the other processes leave them alone meanwhile. *)
Theorem cancelled_addResult_writes_nothing (fuel : nat) (env : world R -> world R)
  (Hc : forall w, catalog (env w) = catalog w)
  (Hm : forall w, machines (env w) = machines w)
  (Hr : forall w, results (env w) = results w)
  (db : asvdb) (info : benchmarkInfo) (br : benchmarkResult R) (w : world R)
  (r : res R unit) :
  doWriteOperations db = false ->
  addResult fuel env db info br w = Some r ->
  catalog (res_world r) = catalog w /\ machines (res_world r) = machines w /\
  results (res_world r) = results w.
Proof.
  intros Hdo H. split; [|split].
  - exact (cancelled_addResult_proj _ catalog (fun _ _ => eq_refl) (fun _ _ => eq_refl)
             fuel env Hc db info br w r Hdo H).
  - exact (cancelled_addResult_proj _ machines (fun _ _ => eq_refl) (fun _ _ => eq_refl)
             fuel env Hm db info br w r Hdo H).
  - exact (cancelled_addResult_proj _ results (fun _ _ => eq_refl) (fun _ _ => eq_refl)
             fuel env Hr db info br w r Hdo H).
Qed.

End Writes.

Section StoreUpdates.
Context {R : Type}.

(** A completed [__updateBenchmarkJson] writes catalog version 2, keeps
    the entries of the other benchmarks, and leaves an entry for the
    benchmark whose unit is the result's, whose parameter names are as many
    as the result's, and whose parameter columns produce the result's value
    tuple; this needs the stored entry, if any, to have either no columns
    or one column per parameter name, and the benchmark not to be named
    ["version"] (whose entry [d["version"] = 2] overwrites). *)
Theorem updateBenchmarkJson_records_values (fuel : nat) (env : world R -> world R)
  (db : asvdb) (br : benchmarkResult R) (w w' : world R)
  (Hname : br_name br <> "version")
  (Hwf : forall b, lookup_key (br_name br) (cat_entries (catalog w)) = Some b ->
         params b = [] \/ List.length (params b) = List.length (param_names b)) :
  updateBenchmarkJson fuel env db br w = Some (Ok tt w') ->
  cat_version (catalog w') = Some 2 /\
  (forall k, k <> br_name br ->
     lookup_key k (cat_entries (catalog w')) = lookup_key k (cat_entries (catalog w))) /\
  exists b', lookup_key (br_name br) (cat_entries (catalog w')) = Some b' /\
    b_unit b' = br_unit br /\
    List.length (param_names b') = List.length (br_argNameValuePairs br) /\
    In (br_values br) (product (params b')).
Proof.
  intros E. unfold updateBenchmarkJson in E. cbv zeta in E.
  set (bd := set_b_unit (br_unit br) _) in E.
  assert (Hu : b_unit bd = br_unit br) by reflexivity.
  assert (Hbd : params bd = [] \/ List.length (params bd) = List.length (param_names bd)).
  { unfold bd. destruct (lookup_key (br_name br) (cat_entries (catalog w))) as [b0|] eqn:Hlk.
    - exact (Hwf b0 eq_refl).
    - left. reflexivity. }
  clearbody bd.
  destruct (negb _) eqn:A in E; [discriminate|].
  apply negb_false_iff, Nat.eqb_eq in A. rewrite length_map in A.
  match type of E with
  | context [match ?np with None => _ | Some _ => _ end] => remember np as onp eqn:Hnp
  end.
  destruct onp as [ps|]; [|discriminate].
  assert (Hin : In (br_values br) (product ps)).
  { revert Hnp. destruct (existsb (tuple_eqb (br_values br)) (product (params bd))) eqn:X;
      intros Hnp.
    - injection Hnp as ->. apply existsb_tuple_In. exact X.
    - destruct (params bd) as [|c cs] eqn:P.
      + injection Hnp as ->. rewrite product_singletons. left. reflexivity.
      + destruct Hbd as [Hbd|Hbd]; [congruence|].
        destruct (extend_params_spec (c :: cs) (br_values br)) as (ps' & EP & F).
        { unfold br_values. rewrite length_map. lia. }
        rewrite EP in Hnp. injection Hnp as ->. apply in_product. exact F. }
  apply writeJsonDictToFile_ok in E as (w1 & _ & ->). cbn [catalog set_files set_catalog].
  split; [reflexivity|]. split.
  - intros k Hk. apply lookup_key_set_key_other. exact Hk.
  - exists (set_params ps bd). split; [apply lookup_key_set_key_same|].
    split; [exact Hu|]. split; [exact A | exact Hin].
Qed.

(** A completed [__updateResultJson] stores, at the results file of the
    machine and commit, a document for the commit whose grid for the
    benchmark is the merge of the result into the grid read before, whose
    other grids are those read before, and whose results list is as long as
    the product of its columns. *)
Theorem updateResultJson_stores_merge (fuel : nat) (env : world R -> world R)
  (db : asvdb) (br : benchmarkResult R) (info : benchmarkInfo) (w w' : world R) :
  updateResultJson fuel env db br info w = Some (Ok tt w') ->
  let p := getResultsFilePath db info in
  let d := match lookup_key p (results w) with Some x => x | None => empty_results end in
  let g := match lookup_key (br_name br) (rd_results d) with
           | Some x => x | None => empty_grid end in
  exists g' d', mergeResult (br_values br) (br_result br) g = inl g' /\
    lookup_key p (results w') = Some d' /\
    lookup_key (br_name br) (rd_results d') = Some g' /\
    (forall k, k <> br_name br -> lookup_key k (rd_results d') = lookup_key k (rd_results d)) /\
    rd_commit_hash d' = commitHash info /\
    List.length (g_result g') = prod_len (g_params g').
Proof.
  intros E p d g. unfold updateResultJson in E. cbv zeta in E. fold p d g in E.
  destruct (mergeResult (br_values br) (br_result br) g) as [g'|e] eqn:M; [|discriminate].
  apply writeJsonDictToFile_ok in E as (w1 & _ & ->).
  eexists g', _. split; [reflexivity|].
  cbn [results set_files set_results]. split; [apply lookup_key_set_key_same|].
  cbn [rd_results rd_commit_hash]. split; [apply lookup_key_set_key_same|].
  split; [intros k Hk; apply lookup_key_set_key_other; exact Hk|].
  split; [reflexivity|]. exact (mergeResult_length _ _ _ _ M).
Qed.

(** [__updateResultJson] raises IndexError, and writes nothing, when the
    stored grid of the benchmark has more columns than the result has
    parameter values. *)
Theorem updateResultJson_short_tuple_raises (fuel : nat) (env : world R -> world R)
  (db : asvdb) (br : benchmarkResult R) (info : benchmarkInfo) (w : world R)
  (d : resultsDoc R) (g : grid R) :
  lookup_key (getResultsFilePath db info) (results w) = Some d ->
  lookup_key (br_name br) (rd_results d) = Some g ->
  g_params g <> [] -> (List.length (br_values br) < List.length (g_params g))%nat ->
  updateResultJson fuel env db br info w = Some (Err IndexError w).
Proof.
  intros Hd Hg Hne Hl. unfold updateResultJson. cbv zeta. rewrite Hd, Hg.
  unfold mergeResult. destruct (g_params g) as [|c cs] eqn:P; [congruence|].
  rewrite update_cols_short; [reflexivity|]. exact Hl.
Qed.

End StoreUpdates.

(** ** The lock on return *)

Section LockExclusive.
Context {R : Type}.

Lemma scan_one_keeps (this : string) (now : Z) (acc : list (string * Z) * list string)
  (x f : string) :
  lookup_time f (fst acc) <> None -> lookup_time f (fst (scan_one this now acc x)) <> None.
Proof.
  destruct acc as [tm ex]. unfold scan_one. destruct (String.eqb x this); [exact id|].
  unfold setdefault. destruct (lookup_time x tm) eqn:L; cbv beta iota; cbn [fst]; [exact id|].
  rewrite lookup_time_app. intros H. destruct (lookup_time f tm); [discriminate | contradiction].
Qed.

Lemma fold_scan_keeps (this : string) (now : Z) (l : list string)
  (acc : list (string * Z) * list string) (f : string) :
  lookup_time f (fst acc) <> None ->
  lookup_time f (fst (fold_left (scan_one this now) l acc)) <> None.
Proof.
  revert acc. induction l as [|x l IH]; intros acc H; [exact H|].
  cbn [fold_left]. apply IH, scan_one_keeps, H.
Qed.

Lemma fold_scan_sees (this : string) (now : Z) (l : list string)
  (acc : list (string * Z) * list string) (f : string) :
  In f l -> f <> this -> lookup_time f (fst (fold_left (scan_one this now) l acc)) <> None.
Proof.
  revert acc. induction l as [|x l IH]; intros acc Hin Hne; [destruct Hin|].
  cbn [fold_left]. destruct Hin as [->|Hin]; [|apply IH; assumption].
  apply fold_scan_keeps. destruct acc as [tm ex]. unfold scan_one.
  apply String.eqb_neq in Hne. rewrite Hne.
  unfold setdefault. destruct (lookup_time f tm) eqn:L; cbv beta iota; cbn [fst].
  - rewrite L. discriminate.
  - rewrite lookup_time_app, L. cbn [lookup_time]. rewrite String.eqb_refl. discriminate.
Qed.

Lemma scan_nil_others (dirPath name : string) (w w' : world R) :
  updateOtherLockfileTimes dirPath name [] w = Ok [] w' -> others dirPath name (files w) = [].
Proof.
  unfold updateOtherLockfileTimes. cbv zeta. cbn [filter]. intros H.
  destruct (others dirPath name (files w)) as [|f rest] eqn:O; [reflexivity|exfalso].
  assert (Hf : In f (others dirPath name (files w))) by (rewrite O; left; reflexivity).
  apply others_In in Hf as [Hg Hne].
  pose proof (fold_scan_sees (path_join dirPath name) (clock w) _ ([], []) f Hg Hne) as K.
  destruct (fold_left _ _ _) as [tm ex]. cbn [fst] in K.
  destruct (removeFiles ex w); [|discriminate]. injection H as -> _. apply K. reflexivity.
Qed.

Lemma lock_step_done_others (env : world R -> world R) (dirPath name : string)
  (s : lstate) (w' : world R) :
  lock_step env dirPath name s = LDone w' -> others dirPath name (files w') = [].
Proof.
  destruct s as [[|] T w]; unfold lock_step; cbv beta zeta; cbn [l_phase l_times l_world].
  - destruct (updateOtherLockfileTimes _ _ _ _); discriminate.
  - destruct T as [|x xs].
    + destruct (updateOtherLockfileTimes dirPath name [] (env (createLockfile dirPath name w)))
        as [t w1|e w1] eqn:E; [|discriminate].
      destruct t as [|k t]; [|
        destruct (releaseLock _ _ _); [destruct (random_random _); [destruct (random_random _)|]|];
        discriminate].
      intros H. injection H as <-. pose proof (scan_nil_world _ _ _ _ _ E) as Hw. subst w1.
      exact (scan_nil_others _ _ _ _ E).
    + destruct (updateOtherLockfileTimes _ _ _ _); discriminate.
Qed.

Lemma getLock_others (env : world R -> world R) (fuel : nat) (dirPath name : string)
  (w w' : world R) :
  getLock env fuel dirPath name w = Some (Ok tt w') -> others dirPath name (files w') = [].
Proof.
  unfold getLock. generalize (mkL LTop [] w) as s. induction fuel as [|fuel IH]; intros s H;
    [discriminate|].
  rewrite lock_run_S in H. destruct (lock_step env dirPath name s) as [s'|w1|e w1] eqn:E.
  - exact (IH s' H).
  - injection H as <-. exact (lock_step_done_others env dirPath name s w1 E).
  - discriminate.
Qed.

(** When [__getLock] returns, our marker is on disk and every file of the
    directory that matches the marker pattern is ours, provided the other
    processes do not delete our marker. *)
Theorem getLock_exclusive (env : world R -> world R) (dirPath name : string)
  (Hkeep : forall w, In (path_join dirPath name) (files w) ->
           In (path_join dirPath name) (files (env w)))
  (fuel : nat) (w w' : world R) :
  getLock env fuel dirPath name w = Some (Ok tt w') ->
  In (path_join dirPath name) (files w') /\
  (forall f, In f (glob_prefix (path_join dirPath lockFilePrefix) (files w')) ->
     f = path_join dirPath name).
Proof.
  intros H. split; [exact (getLock_marker env dirPath name Hkeep fuel w w' H)|].
  intros f Hf. destruct (string_dec f (path_join dirPath name)) as [E|Hne]; [exact E|].
  exfalso. assert (Ho : In f (others dirPath name (files w'))) by (apply others_In; tauto).
  rewrite (getLock_others env fuel dirPath name w w' H) in Ho. exact Ho.
Qed.

End LockExclusive.

(** ** The config document of [ASVDb.__init__] *)

Lemma string_length_app (s t : string) :
  String.length (s ++ t) = (String.length s + String.length t)%nat.
Proof. induction s as [|c s IH]; simpl; [reflexivity | rewrite IH; reflexivity]. Qed.

Lemma string_app_nil_r (s : string) : (s ++ "")%string = s.
Proof. induction s as [|c s IH]; simpl; [reflexivity | rewrite IH; reflexivity]. Qed.

Lemma substring_app_l (s t : string) (m : nat) :
  substring (String.length s) m (s ++ t) = substring 0 m t.
Proof. induction s as [|c s IH]; simpl; [reflexivity | exact IH]. Qed.

Lemma substring_whole (s : string) : substring 0 (String.length s) s = s.
Proof. induction s as [|c s IH]; simpl; [reflexivity | rewrite IH; reflexivity]. Qed.

Lemma ends_with_app (suf s : string) : ends_with suf (s ++ suf) = true.
Proof.
  unfold ends_with. rewrite string_length_app.
  replace (String.length s + String.length suf - String.length suf)%nat
    with (String.length s) by lia.
  rewrite substring_app_l, substring_whole, String.eqb_refl, andb_true_r.
  apply Nat.leb_le. lia.
Qed.

Lemma init_conf_idem (d : confDoc) (repo : string) (branches : option (list string))
  (projectName commitUrl : option string) :
  init_conf (init_conf d repo branches projectName commitUrl) repo branches projectName commitUrl
  = init_conf d repo branches projectName commitUrl.
Proof.
  unfold init_conf. cbv zeta. cbn [c_results_dir c_html_dir c_branches].
  set (cur := match c_branches d with Some b => b | None => [] end).
  set (nb := match branches with Some b => b | None => [] end).
  rewrite (filter_all_false (fun b => negb (mem b (cur ++ filter (fun b => negb (mem b cur)) nb))) nb), app_nil_r; [reflexivity|].
  intros b Hb. apply negb_false_iff, mem_In, in_or_app.
  destruct (mem b cur) eqn:M.
  - left. apply mem_In. exact M.
  - right. apply filter_In. split; [exact Hb|]. rewrite M. reflexivity.
Qed.

Section InitMore.
Context {R : Type}.

Lemma ASVDb_init_db (fuel : nat) (env : world R -> world R)
  (dbDir0 repo : string)
  (branches : option (list string)) (projectName commitUrl : option string)
  (writeDelay0 : Z) (lockName : string) (w w' : world R) (db : asvdb) :
  ASVDb_init fuel env dbDir0 repo branches projectName commitUrl writeDelay0 lockName w
    = Some (Ok db w') ->
  db = mkASVDb dbDir0
         (path_join dbDir0
            (match c_results_dir (init_conf (conf w) repo branches projectName commitUrl) with
             | Some x => x | None => "results" end))
         lockName writeDelay0 true.
Proof.
  unfold ASVDb_init, writeJsonDictToFile, lbind, lift, lmodify, lret. cbv beta zeta.
  cbn [lockFileName].
  destruct (getLock env fuel dbDir0 lockName w) as [[u w1|e w1]|];
    [| discriminate | discriminate].
  unfold releaseLock, removeFile.
  destruct (mem _ _); intros H; [|discriminate].
  injection H as <- _. reflexivity.
Qed.

(** A second run of [ASVDb.__init__] with the same arguments on the store
    the first one left changes nothing in the config document, and opens
    the same results directory, whatever lock file names the two runs use. *)
Theorem ASVDb_init_twice_same_conf (fuel : nat) (env : world R -> world R)
  (dbDir0 repo : string) (branches : option (list string))
  (projectName commitUrl : option string) (writeDelay0 : Z) (lock1 lock2 : string)
  (w w1 w2 : world R) (db1 db2 : asvdb) :
  ASVDb_init fuel env dbDir0 repo branches projectName commitUrl writeDelay0 lock1 w
    = Some (Ok db1 w1) ->
  ASVDb_init fuel env dbDir0 repo branches projectName commitUrl writeDelay0 lock2 w1
    = Some (Ok db2 w2) ->
  conf w2 = conf w1 /\ resultsDirPath db2 = resultsDirPath db1.
Proof.
  intros H1 H2.
  pose proof (ASVDb_init_conf fuel env _ _ _ _ _ _ _ w w1 db1 H1) as C1.
  pose proof (ASVDb_init_conf fuel env _ _ _ _ _ _ _ w1 w2 db2 H2) as C2.
  apply ASVDb_init_db in H1, H2. subst db1 db2. cbn [resultsDirPath].
  rewrite C2, C1, init_conf_idem. split; reflexivity.
Qed.

(** [ASVDb.__init__] stores a repo URL that ends in [.git]: the given one
    if it already does, else the given one with [.git] appended. *)
Theorem ASVDb_init_repo_git (fuel : nat) (env : world R -> world R)
  (dbDir0 repo : string) (branches : option (list string))
  (projectName commitUrl : option string) (writeDelay0 : Z) (lockName : string)
  (w w' : world R) (db : asvdb) :
  ASVDb_init fuel env dbDir0 repo branches projectName commitUrl writeDelay0 lockName w
    = Some (Ok db w') ->
  exists r, c_repo (conf w') = Some r /\ ends_with ".git" r = true /\
    (ends_with ".git" repo = true -> r = repo) /\
    (ends_with ".git" repo = false -> r = (repo ++ ".git")%string).
Proof.
  intros H. apply ASVDb_init_conf in H. rewrite H. unfold init_conf. cbv zeta.
  cbn [c_repo]. destruct (ends_with ".git" repo) eqn:E.
  - exists repo. rewrite string_app_nil_r. split; [reflexivity|]. split; [exact E|].
    split; [reflexivity | discriminate].
  - eexists. split; [reflexivity|]. split; [apply ends_with_app|].
    split; [discriminate | reflexivity].
Qed.

End InitMore.

(** ** [__main__]: filtering and writing results *)

Lemma filter_filter_and {A} (p q : A -> bool) (l : list A) :
  filter p (filter q l) = filter (fun x => q x && p x) l.
Proof.
  induction l as [|a l IH]; simpl; [reflexivity|].
  destruct (q a); simpl; [destruct (p a); simpl; rewrite IH|rewrite IH]; reflexivity.
Qed.

Section MainProps.
Context {R : Type}.

(** Two [--filter] commands in a row keep what the conjunction of their
    expressions keeps. *)
Theorem filterResults_compose (ev1 ev2 : benchmarkInfo -> benchmarkResult R -> bool)
  (l : list (benchmarkInfo * list (benchmarkResult R))) :
  filterResults ev2 (filterResults ev1 l) = filterResults (fun i r => ev1 i r && ev2 i r) l.
Proof.
  induction l as [|[i rs] l IH]; [reflexivity|].
  cbn [filterResults]. rewrite <- (filter_filter_and (ev2 i) (ev1 i) rs).
  destruct (filter (ev1 i) rs) as [|x xs] eqn:F; cbn [filterResults].
  - cbn [filter]. exact IH.
  - rewrite IH. reflexivity.
Qed.

Lemma filterResults_In (ev : benchmarkInfo -> benchmarkResult R -> bool)
  (l : list (benchmarkInfo * list (benchmarkResult R))) (i : benchmarkInfo)
  (rs' : list (benchmarkResult R)) :
  In (i, rs') (filterResults ev l) <->
  exists rs, In (i, rs) l /\ rs' = filter (ev i) rs /\ rs' <> [].
Proof.
  induction l as [|[i0 rs0] l IH]; cbn [filterResults].
  - split; [intros []|]. intros (rs & [] & _).
  - destruct (filter (ev i0) rs0) as [|x xs] eqn:F.
    + rewrite IH. split.
      * intros (rs & Hin & E & Hne). exists rs. split; [right; exact Hin|]. tauto.
      * intros (rs & [Heq|Hin] & E & Hne).
        -- injection Heq as <- <-. rewrite F in E. contradiction.
        -- exists rs. tauto.
    + split.
      * intros [Heq|Hin].
        -- injection Heq as <- <-. exists rs0. split; [left; reflexivity|].
           split; [symmetry; exact F | discriminate].
        -- apply IH in Hin as (rs & Hin & E & Hne). exists rs. split; [right; exact Hin|]. tauto.
      * intros (rs & [Heq|Hin] & E & Hne).
        -- injection Heq as <- <-. left. rewrite F in E. subst rs'. reflexivity.
        -- right. apply IH. exists rs. tauto.
Qed.

(** [filterResults] keeps no empty group and only results the expression
    holds of, and it keeps every result the expression holds of, under its
    own info. *)
Theorem filterResults_selects (ev : benchmarkInfo -> benchmarkResult R -> bool)
  (l : list (benchmarkInfo * list (benchmarkResult R))) :
  (forall i rs', In (i, rs') (filterResults ev l) ->
     rs' <> [] /\ forall r, In r rs' -> ev i r = true) /\
  (forall i rs r, In (i, rs) l -> In r rs -> ev i r = true ->
     exists rs', In (i, rs') (filterResults ev l) /\ In r rs').
Proof.
  split.
  - intros i rs' H. apply filterResults_In in H as (rs & _ & E & Hne).
    split; [exact Hne|]. intros r Hr. rewrite E in Hr. apply filter_In in Hr. tauto.
  - intros i rs r Hin Hr Hev. exists (filter (ev i) rs).
    assert (Hf : In r (filter (ev i) rs)) by (apply filter_In; tauto).
    split; [|exact Hf]. apply filterResults_In. exists rs.
    split; [exact Hin|]. split; [reflexivity|]. intros E. rewrite E in Hf. exact Hf.
Qed.

Lemma lbind_ext {A B} (c : LM R A) (k k' : A -> LM R B) (w : world R) :
  (forall a w', k a w' = k' a w') -> lbind c k w = lbind c k' w.
Proof. intros H. unfold lbind. destruct (c w) as [[a w1|e w1]|]; auto. Qed.

(** Writing the filtered results does the same [addResult] calls, in the
    same order and on the same stores, as writing each group restricted to
    the results the filter keeps: the groups [filterResults] drops would add
    nothing. *)
Theorem updateDb_filterResults (fuel : nat) (env : world R -> world R) (db : asvdb)
  (ev : benchmarkInfo -> benchmarkResult R -> bool)
  (l : list (benchmarkInfo * list (benchmarkResult R))) (w : world R) :
  updateDb fuel env db (filterResults ev l) w =
  updateDb fuel env db (map (fun p => (fst p, filter (ev (fst p)) (snd p))) l) w.
Proof.
  revert db w. induction l as [|[i rs] l IH]; intros db w; [reflexivity|].
  cbn [filterResults map fst snd]. destruct (filter (ev i) rs) as [|x xs] eqn:F.
  - cbn [updateDb updateDb_results lbind lret]. exact (IH db w).
  - cbn [updateDb]. apply lbind_ext. intros db' w'. apply IH.
Qed.

(** With [doWriteOperations] off, [updateDb] cancels only the first result:
    that [addResult] call changes none of the JSON documents (when the other
    processes leave them alone meanwhile), and the loop goes on from the
    store it left with the flag back on, so the following results are
    written as usual. *)
Theorem updateDb_cancels_first_result_only (fuel : nat) (env : world R -> world R)
  (Hc : forall w, catalog (env w) = catalog w)
  (Hm : forall w, machines (env w) = machines w)
  (Hr : forall w, results (env w) = results w)
  (db : asvdb) (info : benchmarkInfo) (br : benchmarkResult R)
  (rs : list (benchmarkResult R)) (rest : list (benchmarkInfo * list (benchmarkResult R)))
  (w w1 : world R) :
  doWriteOperations db = false ->
  addResult fuel env db info br w = Some (Ok tt w1) ->
  catalog w1 = catalog w /\ machines w1 = machines w /\ results w1 = results w /\
  updateDb fuel env db ((info, br :: rs) :: rest) w =
  updateDb fuel env (set_doWriteOperations true db) ((info, rs) :: rest) w1.
Proof.
  intros Hdo E.
  split; [exact (cancelled_addResult_proj _ catalog (fun _ _ => eq_refl) (fun _ _ => eq_refl)
                   fuel env Hc db info br w _ Hdo E)|].
  split; [exact (cancelled_addResult_proj _ machines (fun _ _ => eq_refl) (fun _ _ => eq_refl)
                   fuel env Hm db info br w _ Hdo E)|].
  split; [exact (cancelled_addResult_proj _ results (fun _ _ => eq_refl) (fun _ _ => eq_refl)
                   fuel env Hr db info br w _ Hdo E)|].
  cbn [updateDb updateDb_results]. unfold addResult_obj. unfold lbind, lret. cbv beta.
  rewrite E. reflexivity.
Qed.

End MainProps.

(** ** Instances of the further properties *)

Lemma merge_known_tuple_in_place_witness :
  exists g', mergeResult ["b"; "x"] (Some 7%nat) (mkGrid [["a"; "b"]; ["x"]] [Some 1%nat; Some 2%nat])
             = inl g' /\
    g_params g' = [["a"; "b"]; ["x"]] /\ grid_value g' ["b"; "x"] = Some 7%nat /\
    forall p, p <> ["b"; "x"] ->
      grid_value g' p = grid_value (mkGrid [["a"; "b"]; ["x"]] [Some 1%nat; Some 2%nat]) p.
Proof.
  apply (merge_known_tuple_in_place ["b"; "x"] (Some 7%nat)
           (mkGrid [["a"; "b"]; ["x"]] [Some 1%nat; Some 2%nat])).
  - discriminate.
  - repeat constructor; simpl; intuition discriminate.
  - reflexivity.
  - vm_compute. right. left. reflexivity.
Defined.

Lemma merge_extra_values_dropped_witness :
  exists g', mergeResult ["b"; "y"] (Some 2%nat) (mkGrid [["a"]] [Some 1%nat]) = inl g' /\
    mergeResult ["b"; "y"] (Some 3%nat) (mkGrid [["a"]] [Some 1%nat]) = inl g' /\
    grid_value g' ["b"; "y"] = None.
Proof.
  apply (merge_extra_values_dropped ["b"; "y"] (Some 2%nat) (Some 3%nat)
           (mkGrid [["a"]] [Some 1%nat])).
  - discriminate.
  - simpl. lia.
Defined.

Lemma merge_columns_grow_witness :
  mergeResult ["b"] (Some 2%nat) (mkGrid [["a"]] [Some 1%nat])
    = inl (mkGrid [["a"; "b"]] [Some 1%nat; Some 2%nat]) /\
  Forall (@NoDup string) [["a"; "b"]] /\
  Forall2 (fun c c' => exists s, c' = c ++ s) [["a"]] [["a"; "b"]].
Proof.
  refine ((fun E => conj E _) _); [|vm_compute; reflexivity].
  destruct (merge_columns_grow ["b"] (Some 2%nat) (mkGrid [["a"]] [Some 1%nat])
              (mkGrid [["a"; "b"]] [Some 1%nat; Some 2%nat]) E) as [A B].
  - repeat constructor. simpl. tauto.
  - split; [exact A | apply B; discriminate].
Defined.

Lemma updateBenchmarkJson_records_values_witness :
  exists w', updateBenchmarkJson 3 passive example_db
               (BenchmarkResult "bench1" (Some 1%nat) (Some [(PStr "a", PInt 1)]))
               (example_world [] example_catalog) = Some (Ok tt w') /\
    cat_version (catalog w') = Some 2 /\
    (forall k, k <> "bench1" ->
       lookup_key k (cat_entries (catalog w')) = lookup_key k (cat_entries example_catalog)) /\
    exists b', lookup_key "bench1" (cat_entries (catalog w')) = Some b' /\
      b_unit b' = "seconds" /\ List.length (param_names b') = 1%nat /\
      In ["1"] (product (params b')).
Proof.
  exists_outcome.
  refine ((fun E => conj E (updateBenchmarkJson_records_values 3 passive example_db
             (BenchmarkResult "bench1" (Some 1%nat) (Some [(PStr "a", PInt 1)]))
             (example_world [] example_catalog) _ _ _ E)) _).
  - discriminate.
  - intros b H. vm_compute in H. injection H as <-. left. reflexivity.
  - vm_compute. reflexivity.
Defined.

Lemma updateResultJson_stores_merge_witness :
  exists w', updateResultJson 3 passive example_db
               (BenchmarkResult "bench1" (Some 1%nat) (Some [(PStr "a", PInt 1)])) example_info
               (example_world [] example_catalog) = Some (Ok tt w') /\
    let p := getResultsFilePath example_db example_info in
    let d := match lookup_key p (results (example_world (R := nat) [] example_catalog)) with
             | Some x => x | None => empty_results end in
    let g := match lookup_key "bench1" (rd_results d) with
             | Some x => x | None => empty_grid end in
    exists g' d', mergeResult ["1"] (Some 1%nat) g = inl g' /\
      lookup_key p (results w') = Some d' /\
      lookup_key "bench1" (rd_results d') = Some g' /\
      (forall k, k <> "bench1" -> lookup_key k (rd_results d') = lookup_key k (rd_results d)) /\
      rd_commit_hash d' = "abc" /\
      List.length (g_result g') = prod_len (g_params g').
Proof.
  exists_outcome.
  refine ((fun E => conj E (updateResultJson_stores_merge 3 passive example_db
             (BenchmarkResult "bench1" (Some 1%nat) (Some [(PStr "a", PInt 1)])) example_info
             (example_world [] example_catalog) _ E)) _).
  vm_compute. reflexivity.
Defined.

Lemma updateResultJson_short_tuple_raises_witness :
  updateResultJson 3 passive example_db
    (BenchmarkResult "bench1" (Some 1%nat) (Some [(PStr "a", PInt 1)])) example_info
    (mkWorld [] 0 0 empty_conf example_catalog []
       [("/db/results/m/abc-python3.8-cuda11-linux.json",
         mkResults [] [("bench1", mkGrid [["1"]; ["x"]] [Some 1%nat])] "abc" 0 "3.8" (Some 1))])
  = Some (Err IndexError
       (mkWorld [] 0 0 empty_conf example_catalog []
          [("/db/results/m/abc-python3.8-cuda11-linux.json",
            mkResults [] [("bench1", mkGrid [["1"]; ["x"]] [Some 1%nat])] "abc" 0 "3.8" (Some 1))])).
Proof.
  apply (updateResultJson_short_tuple_raises 3 passive example_db
           (BenchmarkResult "bench1" (Some 1%nat) (Some [(PStr "a", PInt 1)])) example_info
           (mkWorld [] 0 0 empty_conf example_catalog []
              [("/db/results/m/abc-python3.8-cuda11-linux.json",
                mkResults [] [("bench1", mkGrid [["1"]; ["x"]] [Some 1%nat])] "abc" 0 "3.8" (Some 1))])
           (mkResults [] [("bench1", mkGrid [["1"]; ["x"]] [Some 1%nat])] "abc" 0 "3.8" (Some 1))
           (mkGrid [["1"]; ["x"]] [Some 1%nat])).
  - vm_compute. reflexivity.
  - vm_compute. reflexivity.
  - discriminate.
  - simpl. lia.
Defined.

Lemma cancelled_addResult_writes_nothing_witness :
  exists r, addResult 3 passive (mkASVDb "/db" "/db/results" ".asvdbLOCK-1-1" 0 false)
              example_info (BenchmarkResult "bench1" (Some 1%nat) (Some [(PStr "a", PInt 1)]))
              (example_world [] example_catalog) = Some r /\
    catalog (res_world r) = example_catalog /\ machines (res_world r) = [] /\
    results (res_world r) = [].
Proof.
  exists_outcome.
  refine ((fun E => conj E (cancelled_addResult_writes_nothing 3 passive
             (fun _ => eq_refl) (fun _ => eq_refl) (fun _ => eq_refl)
             (mkASVDb "/db" "/db/results" ".asvdbLOCK-1-1" 0 false) example_info
             (BenchmarkResult "bench1" (Some 1%nat) (Some [(PStr "a", PInt 1)]))
             (example_world [] example_catalog) _ eq_refl E)) _).
  vm_compute. reflexivity.
Defined.

Lemma getLock_exclusive_witness :
  exists w', getLock passive 3 "/db" ".asvdbLOCK-1-1"
               (example_world (R := nat) ["/db/asv.conf.json"] example_catalog) = Some (Ok tt w') /\
    In (path_join "/db" ".asvdbLOCK-1-1") (files w') /\
    (forall f, In f (glob_prefix (path_join "/db" lockFilePrefix) (files w')) ->
       f = path_join "/db" ".asvdbLOCK-1-1").
Proof.
  exists_outcome.
  refine ((fun E => conj E (getLock_exclusive passive "/db" ".asvdbLOCK-1-1"
             (fun _ H => H) 3
             (example_world ["/db/asv.conf.json"] example_catalog) _ E)) _).
  vm_compute. reflexivity.
Defined.

Lemma ASVDb_init_twice_same_conf_witness :
  exists db1 w1,
    ASVDb_init 3 passive "/db" "https://github.com/rapidsai/cudf" (Some ["main"]) None None 0
      ".asvdbLOCK-1-1" (example_world (R := nat) [] example_catalog) = Some (Ok db1 w1) /\
    exists db2 w2,
      ASVDb_init 3 passive "/db" "https://github.com/rapidsai/cudf" (Some ["main"]) None None 0
        ".asvdbLOCK-2-2" w1 = Some (Ok db2 w2) /\
      conf w2 = conf w1 /\ resultsDirPath db2 = resultsDirPath db1.
Proof.
  exists_outcome. split; [vm_compute; reflexivity|].
  exists_outcome.
  refine ((fun E2 => conj E2 (ASVDb_init_twice_same_conf 3 passive "/db"
             "https://github.com/rapidsai/cudf" (Some ["main"]) None None 0
             ".asvdbLOCK-1-1" ".asvdbLOCK-2-2"
             (example_world [] example_catalog) _ _ _ _ _ E2)) _).
  - vm_compute. reflexivity.
  - vm_compute. reflexivity.
Defined.

Lemma ASVDb_init_repo_git_witness :
  exists db w',
    ASVDb_init 3 passive "/db" "https://github.com/rapidsai/cudf" (Some ["main"]) None None 0
      ".asvdbLOCK-1-1" (example_world (R := nat) [] example_catalog) = Some (Ok db w') /\
    exists r, c_repo (conf w') = Some r /\ ends_with ".git" r = true /\
      (ends_with ".git" "https://github.com/rapidsai/cudf" = true ->
         r = "https://github.com/rapidsai/cudf") /\
      (ends_with ".git" "https://github.com/rapidsai/cudf" = false ->
         r = ("https://github.com/rapidsai/cudf" ++ ".git")%string).
Proof.
  exists_outcome.
  refine ((fun E => conj E (ASVDb_init_repo_git 3 passive "/db"
             "https://github.com/rapidsai/cudf" (Some ["main"]) None None 0 ".asvdbLOCK-1-1"
             (example_world [] example_catalog) _ _ E)) _).
  vm_compute. reflexivity.
Defined.

Lemma filterResults_selects_witness :
  exists rs', In (example_info, rs')
      (filterResults (fun _ b => String.eqb (br_name b) "bench1")
         [(example_info, [BenchmarkResult "bench1" (Some 1%nat) None;
                          BenchmarkResult "bench2" (Some 2%nat) None])]) /\
    In (BenchmarkResult "bench1" (Some 1%nat) None) rs'.
Proof.
  apply (proj2 (filterResults_selects (fun _ b => String.eqb (br_name b) "bench1")
           [(example_info, [BenchmarkResult "bench1" (Some 1%nat) None;
                            BenchmarkResult "bench2" (Some 2%nat) None])])
           example_info
           [BenchmarkResult "bench1" (Some 1%nat) None; BenchmarkResult "bench2" (Some 2%nat) None]
           (BenchmarkResult "bench1" (Some 1%nat) None)).
  - left. reflexivity.
  - left. reflexivity.
  - reflexivity.
Defined.

Lemma updateDb_cancels_first_result_only_witness :
  exists w1, addResult 3 passive (mkASVDb "/db" "/db/results" ".asvdbLOCK-1-1" 0 false)
               example_info (BenchmarkResult "bench1" (Some 1%nat) (Some [(PStr "a", PInt 1)]))
               (example_world [] example_catalog) = Some (Ok tt w1) /\
    catalog w1 = example_catalog /\ machines w1 = [] /\ results w1 = [] /\
    updateDb 3 passive (mkASVDb "/db" "/db/results" ".asvdbLOCK-1-1" 0 false)
      [(example_info, [BenchmarkResult "bench1" (Some 1%nat) (Some [(PStr "a", PInt 1)]);
                       BenchmarkResult "bench1" (Some 2%nat) (Some [(PStr "a", PInt 2)])])]
      (example_world [] example_catalog) =
    updateDb 3 passive (mkASVDb "/db" "/db/results" ".asvdbLOCK-1-1" 0 true)
      [(example_info, [BenchmarkResult "bench1" (Some 2%nat) (Some [(PStr "a", PInt 2)])])] w1.
Proof.
  exists_outcome.
  refine ((fun E => conj E (updateDb_cancels_first_result_only 3 passive
             (fun _ => eq_refl) (fun _ => eq_refl) (fun _ => eq_refl)
             (mkASVDb "/db" "/db/results" ".asvdbLOCK-1-1" 0 false) example_info
             (BenchmarkResult "bench1" (Some 1%nat) (Some [(PStr "a", PInt 1)]))
             [BenchmarkResult "bench1" (Some 2%nat) (Some [(PStr "a", PInt 2)])] []
             (example_world [] example_catalog) _ eq_refl E)) _).
  vm_compute. reflexivity.
Defined.
